(** * collectd powerdns plugin (src/powerdns.c): model and properties

    The plugin polls PowerDNS control sockets.  This development embeds the
    lookup table and [submit], the two socket strategies, the two reply
    decoders, the configuration callback and the read callback, and states
    the properties of the design document against them.

    Conventions:
    - a C string ([char *] up to its terminating NUL) is a [string]; a
      possibly-NULL [char *] is an [option string];
    - a block of memory (a buffer returned through [ret_buffer], a chunk
      delivered by [recv]) is a [list ascii] holding every byte of the block;
    - a pointer into a C string that is only ever advanced is the suffix it
      points to;
    - calls that leave the process (system calls, logging, the plugin API)
      are recorded, in program order, in a list of [event]s;
    - what the kernel and the allocator answer is read from an [io_env]. *)

From Stdlib Require Import List String Ascii ZArith Bool Arith Lia.
Import ListNotations.
Local Open Scope string_scope.
Local Open Scope list_scope.
Set Warnings "-register-all".

(** ** Outcomes *)

(** A call either returns a value or runs into behaviour the C language
    leaves undefined (here: dereferencing a null pointer). *)
Inductive outcome (A : Type) : Type :=
| Returns (a : A)
| Undefined.
Arguments Returns {A} a.
Arguments Undefined {A}.

(** ** C strings *)

Module CString.

(** [strchr (delim, c) != NULL] for a non-NUL character [c]. *)
Fixpoint is_delim (delim : string) (c : ascii) : bool :=
  match delim with
  | EmptyString => false
  | String d delim' => if Ascii.eqb d c then true else is_delim delim' c
  end.

(** [s + strspn (s, delim)]. *)
Fixpoint skip_delims (delim : string) (s : string) : string :=
  match s with
  | EmptyString => EmptyString
  | String c s' => if is_delim delim c then skip_delims delim s' else s
  end.

(** The first [strcspn (s, delim)] characters of [s], and what follows them:
    [None] when the token runs up to the terminating NUL, [Some rest] when it
    is ended by a delimiter, [rest] being what follows that delimiter. *)
Fixpoint cut_token (delim : string) (s : string) : string * option string :=
  match s with
  | EmptyString => (EmptyString, None)
  | String c s' =>
      if is_delim delim c then (EmptyString, Some s')
      else let (tok, rest) := cut_token delim s' in (String c tok, rest)
  end.

(** [strtok_r (s, delim, &save_ptr)], as glibc implements it.  The result is
    the token (or NULL) together with the new value of [save_ptr].  With
    both [s] and [*save_ptr] NULL the function reads through a null pointer. *)
Definition strtok_r (s : option string) (delim : string)
    (save_ptr : option string) : outcome (option string * option string) :=
  match (match s with Some _ => s | None => save_ptr end) with
  | None => Undefined
  | Some s0 =>
      match skip_delims delim s0 with
      | EmptyString => Returns (None, Some EmptyString)
      | String c s1 =>
          match cut_token delim (String c s1) with
          | (tok, None) => Returns (Some tok, Some EmptyString)
          | (tok, Some rest) => Returns (Some tok, Some rest)
          end
      end
  end.

(** [strchr (s, c)] followed by [*p = '\0'; p++]: the part of [s] before the
    first [c] and the part after it; [None] when [strchr] returns NULL. *)
Fixpoint split_at_char (c : ascii) (s : string) : option (string * string) :=
  match s with
  | EmptyString => None
  | String a s' =>
      if Ascii.eqb a c then Some (EmptyString, s')
      else match split_at_char c s' with
           | Some (k, v) => Some (String a k, v)
           | None => None
           end
  end.

(** The C string stored at the start of a memory block: the bytes before the
    first NUL. *)
Fixpoint of_block (b : list ascii) : string :=
  match b with
  | [] => EmptyString
  | c :: b' => if Ascii.eqb c zero then EmptyString else String c (of_block b')
  end.

(** [sstrncpy (dest, src, n)]: [strncpy] and then [dest[n - 1] = '\0']. *)
Definition sstrncpy (src : string) (n : nat) : string :=
  substring 0 (n - 1) src.

(** [strcasecmp (a, b) == 0]. *)
Definition tolower (c : ascii) : ascii :=
  let n := nat_of_ascii c in
  if ((65 <=? n)%nat && (n <=? 90)%nat)%bool then ascii_of_nat (n + 32) else c.

Fixpoint strcasecmp_eq (a b : string) : bool :=
  match a, b with
  | EmptyString, EmptyString => true
  | String x a', String y b' =>
      Ascii.eqb (tolower x) (tolower y) && strcasecmp_eq a' b'
  | _, _ => false
  end.

(** *** Tokens, as the design document words them

    "Split the whole buffer on [delim]; for each non-empty token ...":
    the fields between delimiters, empty fields dropped. *)
Fixpoint fields (delim : string) (s : string) : list string :=
  match s with
  | EmptyString => [EmptyString]
  | String c s' =>
      if is_delim delim c then EmptyString :: fields delim s'
      else match fields delim s' with
           | f :: fs => String c f :: fs
           | [] => [String c EmptyString]
           end
  end.

Definition nonempty (s : string) : bool :=
  match s with EmptyString => false | _ => true end.

Definition tokens (delim : string) (s : string) : list string :=
  filter nonempty (fields delim s).

End CString.

Import CString.

(** ** What the plugin is linked against *)

(** [data_source_t] and [data_set_t] of plugin.h; [ds_num] is the length of
    the [ds] array. *)
Inductive ds_type_t : Type := DS_TYPE_COUNTER | DS_TYPE_GAUGE.

Record data_source_t : Type := { ds_name : string; ds_type : ds_type_t }.

Record data_set_t : Type := { set_type : string; ds : list data_source_t }.

Definition ds_num (d : data_set_t) : Z := Z.of_nat (List.length (ds d)).

(** [value_t]: a union of [counter_t] (unsigned 64 bit) and [gauge_t]
    (double).  Doubles are kept abstract. *)
Inductive value_t (gauge_t : Type) : Type :=
| counter (c : Z)
| gauge (g : gauge_t).
Arguments counter {gauge_t} c.
Arguments gauge {gauge_t} g.

(** [value_list_t], as [submit] fills it in. *)
Record value_list_t (gauge_t : Type) : Type := {
  vl_values : list (value_t gauge_t);
  vl_time : Z;
  vl_host : string;
  vl_plugin : string;
  vl_plugin_instance : string;
  vl_type_instance : string
}.
Arguments vl_values {gauge_t}.
Arguments vl_time {gauge_t}.
Arguments vl_host {gauge_t}.
Arguments vl_plugin {gauge_t}.
Arguments vl_plugin_instance {gauge_t}.
Arguments vl_type_instance {gauge_t}.

(** The C library, the daemon and the build configuration, as far as the
    plugin depends on them. *)
Record host (gauge_t : Type) : Type := {
  (** [strtod (value, &endptr)]: the number and [endptr - value]. *)
  strtod : string -> gauge_t * nat;
  (** [strtoll (value, &endptr, 0)]: the number and [endptr - value]. *)
  strtoll : string -> Z * nat;
  plugin_get_ds : string -> option data_set_t;
  (** [time (NULL)] *)
  time_now : Z;
  hostname_g : string;
  DATA_MAX_NAME_LEN : nat;
  (** [sizeof (((struct sockaddr_un * )0)->sun_path)] *)
  UNIX_PATH_MAX : nat;
  LOCALSTATEDIR : string;
  PACKAGE_NAME : string;
  (** the word of memory that follows the last entry of [lookup_table], at
      the place where a further entry would have its [type] member *)
  past_lookup_table : option string
}.
Arguments strtod {gauge_t}.
Arguments strtoll {gauge_t}.
Arguments plugin_get_ds {gauge_t}.
Arguments time_now {gauge_t}.
Arguments hostname_g {gauge_t}.
Arguments DATA_MAX_NAME_LEN {gauge_t}.
Arguments UNIX_PATH_MAX {gauge_t}.
Arguments LOCALSTATEDIR {gauge_t}.
Arguments PACKAGE_NAME {gauge_t}.
Arguments past_lookup_table {gauge_t}.

(** ** Events *)

Inductive log_level : Type := LOG_ERR | LOG_WARNING | LOG_DEBUG.

Inductive log_arg : Type :=
| arg_s (s : string)
| arg_i (i : Z).

Inductive event (gauge_t : Type) : Type :=
| ev_socket (socktype : Z)
| ev_unlink (path : string)
| ev_bind (path : string)
| ev_chmod (path : string) (mode : Z)
| ev_connect (path : string)
| ev_send (bytes : list ascii)
| ev_recv (size : nat)
| ev_close
| ev_log (level : log_level) (format : string) (args : list log_arg)
| ev_plugin_get_ds (type : string)
| ev_plugin_dispatch_values (type : string) (vl : value_list_t gauge_t).
Arguments ev_socket {gauge_t}.
Arguments ev_unlink {gauge_t}.
Arguments ev_bind {gauge_t}.
Arguments ev_chmod {gauge_t}.
Arguments ev_connect {gauge_t}.
Arguments ev_send {gauge_t}.
Arguments ev_recv {gauge_t}.
Arguments ev_close {gauge_t}.
Arguments ev_log {gauge_t}.
Arguments ev_plugin_get_ds {gauge_t}.
Arguments ev_plugin_dispatch_values {gauge_t}.

(** [FUNC_ERROR (func)]; the text of [errno] is left out. *)
Definition FUNC_ERROR {gauge_t : Type} (func : string) : event gauge_t :=
  ev_log LOG_ERR "powerdns plugin: %s failed: %s" [arg_s func].

Definition is_unlink {gauge_t : Type} (e : event gauge_t) : bool :=
  match e with ev_unlink _ => true | _ => false end.

Definition is_get_ds {gauge_t : Type} (e : event gauge_t) : bool :=
  match e with ev_plugin_get_ds _ => true | _ => false end.

Definition is_dispatch {gauge_t : Type} (e : event gauge_t) : bool :=
  match e with ev_plugin_dispatch_values _ _ => true | _ => false end.

(** ** Constants *)

Definition SERVER_SOCKET : string := "/var/run/pdns.controlsocket".
Definition SERVER_COMMAND : string := "SHOW *".
Definition RECURSOR_SOCKET : string := "/var/run/pdns_recursor.controlsocket".
Definition RECURSOR_COMMAND : string :=
  ("get all-outqueries answers0-1 "
  ++ "answers100-1000 answers10-100 answers1-10 answers-slow cache-entries "
  ++ "cache-hits cache-misses chain-resends client-parse-errors "
  ++ "concurrent-queries dlg-only-drops ipv6-outqueries negcache-entries "
  ++ "noerror-answers nsset-invalidations nsspeeds-entries nxdomain-answers "
  ++ "outgoing-timeouts qa-latency questions resource-limits "
  ++ "server-parse-errors servfail-answers spoof-prevents sys-msec "
  ++ "tcp-client-overflow tcp-outqueries tcp-questions throttled-out "
  ++ "throttled-outqueries throttle-entries unauthorized-tcp unauthorized-udp "
  ++ "unexpected-packets unreachables user-msec")%string.

(** <sys/socket.h> (Linux values) and <errno.h> *)
Definition SOCK_STREAM : Z := 1.
Definition SOCK_DGRAM : Z := 2.
Definition ENOENT : Z := 2.

(** ** The lookup table *)

Record statname_lookup_t : Type := {
  name : string;
  type : string;
  type_instance : option string
}.

Definition entry (n t : string) (ti : option string) : statname_lookup_t :=
  {| name := n; type := t; type_instance := ti |}.

Definition lookup_table : list statname_lookup_t :=
  [ (* Server statistics: questions *)
    entry "recursing-questions" "dns_question" (Some "recurse");
    entry "tcp-queries" "dns_question" (Some "tcp");
    entry "udp-queries" "dns_question" (Some "udp");
    (* answers *)
    entry "recursing-answers" "dns_answer" (Some "recurse");
    entry "tcp-answers" "dns_answer" (Some "tcp");
    entry "udp-answers" "dns_answer" (Some "udp");
    (* cache *)
    entry "packetcache-hit" "cache_result" (Some "packet-hit");
    entry "packetcache-miss" "cache_result" (Some "packet-miss");
    entry "packetcache-size" "cache_size" (Some "packet");
    entry "query-cache-hit" "cache_result" (Some "query-hit");
    entry "query-cache-miss" "cache_result" (Some "query-miss");
    (* latency *)
    entry "latency" "latency" None;
    (* other *)
    entry "corrupt-packets" "io_packets" (Some "corrupt");
    entry "deferred-cache-inserts" "counter" (Some "cache-deferred_insert");
    entry "deferred-cache-lookup" "counter" (Some "cache-deferred_lookup");
    entry "qsize-a" "cache_size" (Some "answers");
    entry "qsize-q" "cache_size" (Some "questions");
    entry "servfail-packets" "io_packets" (Some "servfail");
    entry "timedout-packets" "io_packets" (Some "timeout");
    entry "udp4-answers" "dns_answer" (Some "udp4");
    entry "udp4-queries" "dns_question" (Some "queries-udp4");
    entry "udp6-answers" "dns_answer" (Some "udp6");
    entry "udp6-queries" "dns_question" (Some "queries-udp6");
    (* Recursor statistics: answers by return code *)
    entry "noerror-answers" "dns_rcode" (Some "NOERROR");
    entry "nxdomain-answers" "dns_rcode" (Some "NXDOMAIN");
    entry "servfail-answers" "dns_rcode" (Some "SERVFAIL");
    (* CPU utilization *)
    entry "sys-msec" "cpu" (Some "system");
    entry "user-msec" "cpu" (Some "user");
    (* question-to-answer latency *)
    entry "qa-latency" "latency" None;
    (* cache *)
    entry "cache-entries" "cache_size" None;
    entry "cache-hits" "cache_result" (Some "hit");
    entry "cache-misses" "cache_result" (Some "miss");
    (* total number of questions *)
    entry "questions" "dns_qtype" (Some "total") ].

Definition lookup_table_length : nat := List.length lookup_table.

(** The loop
    [for (i = 0; i < lookup_table_length; i++)
       if (strcmp (lookup_table[i].name, pdns_type) == 0) break;]
    run from index [i] over the entries [tbl] that start there; the result
    is the value of [i] when the loop is left. *)
Fixpoint scan (tbl : list statname_lookup_t) (pdns_type : string) (i : nat)
    : nat :=
  match tbl with
  | [] => i
  | e :: tbl' =>
      if String.eqb (name e) pdns_type then i else scan tbl' pdns_type (S i)
  end.

(** The index at which [submit] reads the table once the loop is left. *)
Definition submit_index (pdns_type : string) : nat :=
  scan lookup_table pdns_type 0.

(** Some entry of the table carries this name. *)
Definition resolved (pdns_type : string) : bool :=
  existsb (fun e => String.eqb (name e) pdns_type) lookup_table.

(** ** Targets and what the kernel answers *)

(** The two collection functions a [list_item_t] can point to. *)
Inductive func_t : Type := func_read_server | func_read_recursor.

(** [list_item_t]; [sockaddr] is the [sun_path] of the remote socket.  An
    item is entered in the list only with [instance], [command] and [func]
    set, so these are not optional here. *)
Record list_item_t : Type := {
  func : func_t;
  instance : string;
  command : string;
  sockaddr : string;
  socktype : Z
}.

(** One [recv]: an error (negative status), or the bytes it stored in
    [temp], their number being the status. *)
Inductive recv_result : Type :=
| recv_error
| recv_data (temp : list ascii).

(** What the kernel and the allocator answer during one call of a target's
    collection function.  [io_recv] lists the results of the successive
    [recv] calls; once the list is used up the peer has closed the socket
    and [recv] returns 0. *)
Record io_env : Type := {
  io_socket : Z;
  io_unlink : Z * Z;        (* status and errno of unlink before bind *)
  io_bind : Z;
  io_chmod : Z;
  io_connect : Z;
  io_send : Z;
  io_recv : list recv_result;
  io_alloc : nat -> bool;   (* does the k-th malloc or realloc succeed *)
  io_strdup : bool          (* does strdup (item->command) succeed *)
}.

(** [sizeof (temp)] *)
Definition TEMP_SIZE : nat := 4096.

(** [" \t"] and [" \t\n\r"] *)
Definition HT : ascii := ascii_of_nat 9.
Definition LF : ascii := ascii_of_nat 10.
Definition CR : ascii := ascii_of_nat 13.
Definition KEY_DELIM : string := String " " (String HT EmptyString).
Definition VALUE_DELIM : string :=
  String " " (String HT (String LF (String CR EmptyString))).

(** A possibly-NULL buffer seen as a possibly-NULL C string. *)
Definition buffer_string (buffer : option (list ascii)) : option string :=
  option_map of_block buffer.

Definition buffer_fuel (buffer : option (list ascii)) : nat :=
  match buffer with
  | Some b => S (List.length b)
  | None => 1
  end.

(** ** The decoding loops

    Both loops are written over the action [act] taken for each decoded
    pair, so that the pairs themselves ([act := fun k v => [(k, v)]]) and
    the events of submitting them ([act := submit ...]) come from the same
    definition.  [fuel] bounds the number of iterations; every iteration
    consumes at least one character of the reply. *)

Section Loops.
Context {E : Type} (act : string -> string -> list E).

(** [while ((key = strtok_r (dummy, ",", &saveptr)) != NULL) { ... }] of
    [powerdns_read_server]. *)
Fixpoint read_server_loop (fuel : nat) (dummy saveptr : option string)
    : outcome (list E) :=
  match fuel with
  | O => Returns []
  | S fuel' =>
      match strtok_r dummy "," saveptr with
      | Undefined => Undefined
      | Returns (None, _) => Returns []
      | Returns (Some key, saveptr') =>
          match split_at_char "=" key with
          | None => Returns []                         (* break *)
          | Some (key', value) =>
              match read_server_loop fuel' None saveptr' with
              | Undefined => Undefined
              | Returns rest =>
                  match value with
                  | EmptyString => Returns rest        (* continue *)
                  | _ => Returns (act key' value ++ rest)
                  end
              end
          end
      end
  end.

(** [while ((value = strtok_r (dummy, " \t\n\r", &value_saveptr)) != NULL)
    { ... }] of [powerdns_read_recursor]. *)
Fixpoint read_recursor_loop (fuel : nat)
    (dummy value_saveptr key_saveptr : option string) : outcome (list E) :=
  match fuel with
  | O => Returns []
  | S fuel' =>
      match strtok_r dummy VALUE_DELIM value_saveptr with
      | Undefined => Undefined
      | Returns (None, _) => Returns []
      | Returns (Some value, value_saveptr') =>
          match strtok_r None KEY_DELIM key_saveptr with
          | Undefined => Undefined
          | Returns (None, _) => Returns []             (* break *)
          | Returns (Some key, key_saveptr') =>
              match read_recursor_loop fuel' None value_saveptr'
                      key_saveptr' with
              | Undefined => Undefined
              | Returns rest => Returns (act key value ++ rest)
              end
          end
      end
  end.

(** [powerdns_read_server] from [dummy = buffer] on. *)
Definition server_decode (buffer : option (list ascii)) : outcome (list E) :=
  read_server_loop (buffer_fuel buffer) (buffer_string buffer) None.

(** [powerdns_read_recursor] from [key_saveptr = NULL] on, [keys_list]
    being the copy of [item->command]. *)
Definition recursor_decode (keys_list : string)
    (buffer : option (list ascii)) : outcome (list E) :=
  match strtok_r (Some keys_list) KEY_DELIM None with
  | Undefined => Undefined
  | Returns (_, key_saveptr) =>
      read_recursor_loop (buffer_fuel buffer) (buffer_string buffer) None
        key_saveptr
  end.
End Loops.

(** The string the next [strtok_r (dummy, delim, &saveptr)] scans. *)
Definition scanned (dummy saveptr : option string) : option string :=
  match dummy with
  | Some _ => dummy
  | None => saveptr
  end.

(** The raw pairs a reply decodes to. *)
Definition pair_of (key value : string) : list (string * string) :=
  [(key, value)].

Definition server_pairs (buffer : option (list ascii))
    : outcome (list (string * string)) :=
  server_decode pair_of buffer.

Definition recursor_pairs (cmd : string) (buffer : option (list ascii))
    : outcome (list (string * string)) :=
  recursor_decode pair_of cmd buffer.

(** ** The plugin *)

Section Plugin.
Context {gauge_t : Type} (h : host gauge_t).

(** [PDNS_LOCAL_SOCKPATH] *)
Definition PDNS_LOCAL_SOCKPATH : string :=
  (LOCALSTATEDIR h ++ "/run/" ++ PACKAGE_NAME h ++ "-powerdns")%string.

(** *** submit *)

(** The value of [lookup_table[i].type] for [i <= lookup_table_length].
    At [i = lookup_table_length] the read is past the last entry and yields
    whatever the neighbouring memory holds. *)
Definition table_type_at (i : nat) : option string :=
  match nth_error lookup_table i with
  | Some e => Some (type e)
  | None => past_lookup_table h
  end.

(** The conversion of [value]: [strtod] for a gauge, [strtoll] with base 0
    stored in the unsigned [counter_t] otherwise; [inl] carries the error
    logged when [endptr == value]. *)
Definition convert (t : ds_type_t) (value : string)
    : event gauge_t + value_t gauge_t :=
  match t with
  | DS_TYPE_GAUGE =>
      let (g, consumed) := strtod h value in
      if (consumed =? 0)%nat
      then inl (ev_log LOG_ERR
                  "powerdns plugin: Cannot convert `%s' to a floating point number."
                  [arg_s value])
      else inr (gauge g)
  | DS_TYPE_COUNTER =>
      let (c, consumed) := strtoll h value in
      if (consumed =? 0)%nat
      then inl (ev_log LOG_ERR
                  "powerdns plugin: Cannot convert `%s' to an integer number."
                  [arg_s value])
      else inr (counter (c mod 2 ^ 64)%Z)
  end.

Definition submit (plugin_instance pdns_type value : string)
    : list (event gauge_t) :=
  let i := submit_index pdns_type in
  match table_type_at i with
  | None => []                       (* lookup_table[i].type == NULL *)
  | Some _ =>
      if (lookup_table_length <=? i)%nat
      then [ev_log LOG_DEBUG
              "powerdns plugin: submit: Not found in lookup table: %s = %s;"
              [arg_s pdns_type; arg_s value]]
      else
        match nth_error lookup_table i with
        | None => []                 (* excluded by i < lookup_table_length *)
        | Some e =>
            ev_plugin_get_ds (type e) ::
            match plugin_get_ds h (type e) with
            | None =>
                [ev_log LOG_ERR
                   "powerdns plugin: The lookup table returned type `%s', but I cannot find it via `plugin_get_ds'."
                   [arg_s (type e)]]
            | Some d =>
                match ds d with
                | [d0] =>
                    match convert (ds_type d0) value with
                    | inl err => [err]
                    | inr v =>
                        [ev_plugin_dispatch_values (type e)
                           {| vl_values := [v];
                              vl_time := time_now h;
                              vl_host :=
                                sstrncpy (hostname_g h) (DATA_MAX_NAME_LEN h);
                              vl_plugin :=
                                sstrncpy "powerdns" (DATA_MAX_NAME_LEN h);
                              vl_plugin_instance :=
                                sstrncpy plugin_instance (DATA_MAX_NAME_LEN h);
                              vl_type_instance :=
                                match type_instance e with
                                | Some ti => sstrncpy ti (DATA_MAX_NAME_LEN h)
                                | None => EmptyString
                                end |}]
                    end
                | _ =>               (* ds->ds_num != 1 *)
                    [ev_log LOG_ERR
                       "powerdns plugin: type `%s' has %i data sources, but I can only handle one."
                       [arg_s (type e); arg_i (ds_num d)]]
                end
            end
        end
  end.

(** *** powerdns_get_data_dgram *)

(** The result of a [powerdns_get_data*] call: the status returned and the
    caller's [buffer] and [buffer_size] after the call (NULL and 0 unless
    the call stored something there). *)
Record get_data_result : Type := {
  gd_status : Z;
  gd_buffer : option (list ascii);
  gd_buffer_size : nat
}.

Definition gd_failed (status : Z) : get_data_result :=
  {| gd_status := status; gd_buffer := None; gd_buffer_size := 0 |}.

(** [sa_unix.sun_path] after the [strncpy] and the forced terminator. *)
Definition dgram_sun_path (local_sockpath : option string) : string :=
  sstrncpy (match local_sockpath with
            | Some p => p
            | None => PDNS_LOCAL_SOCKPATH
            end) (UNIX_PATH_MAX h).

(** The one [recv] of the datagram strategy: status and contents of
    [temp]. *)
Definition recv_once (io : io_env) : Z * list ascii :=
  match io_recv io with
  | [] => (0%Z, [])
  | recv_error :: _ => ((-1)%Z, [])
  | recv_data temp :: _ => (Z.of_nat (List.length temp), temp)
  end.

(** The body of [do { ... } while (0)]: its events, [status] when it is
    left, and [temp]. *)
Definition dgram_exchange (item : list_item_t) (path : string) (io : io_env)
    : list (event gauge_t) * Z * list ascii :=
  if negb (io_bind io =? 0)%Z
  then ([ev_bind path; FUNC_ERROR "bind"], io_bind io, [])
  else if negb (io_chmod io =? 0)%Z
  then ([ev_bind path; ev_chmod path 438; FUNC_ERROR "chmod"],
        io_chmod io, [])
  else if negb (io_connect io =? 0)%Z
  then ([ev_bind path; ev_chmod path 438; ev_connect (sockaddr item);
         FUNC_ERROR "connect"], io_connect io, [])
  else if (io_send io <? 0)%Z
  then ([ev_bind path; ev_chmod path 438; ev_connect (sockaddr item);
         ev_send (list_ascii_of_string (command item)); FUNC_ERROR "send"],
        io_send io, [])
  else
    let (status, temp) := recv_once io in
    if (status <? 0)%Z
    then ([ev_bind path; ev_chmod path 438; ev_connect (sockaddr item);
           ev_send (list_ascii_of_string (command item)); ev_recv TEMP_SIZE;
           FUNC_ERROR "recv"], status, temp)
    else ([ev_bind path; ev_chmod path 438; ev_connect (sockaddr item);
           ev_send (list_ascii_of_string (command item)); ev_recv TEMP_SIZE],
          0%Z, temp).                                  (* status = 0; *)

Definition powerdns_get_data_dgram (local_sockpath : option string)
    (item : list_item_t) (io : io_env)
    : list (event gauge_t) * get_data_result :=
  if (io_socket io <? 0)%Z
  then ([ev_socket (socktype item); FUNC_ERROR "socket"], gd_failed (-1))
  else
    let path := dgram_sun_path local_sockpath in
    let (status, errno) := io_unlink io in
    if negb (status =? 0)%Z && negb (errno =? ENOENT)%Z
    then ([ev_socket (socktype item); ev_unlink path; FUNC_ERROR "unlink";
           ev_close], gd_failed (-1))
    else
      let '(tr, status, temp) := dgram_exchange item path io in
      let tr := ev_socket (socktype item) :: ev_unlink path :: tr
                ++ [ev_close; ev_unlink path] in
      if negb (status =? 0)%Z
      then (tr, gd_failed (-1))
      else
        let buffer_size := Z.to_nat (status + 1) in
        if negb (io_alloc io 0)
        then (tr ++ [FUNC_ERROR "malloc"], gd_failed (-1))
        else
          (* memcpy (buffer, temp, status); buffer[status] = 0; *)
          let buffer := firstn (Z.to_nat status) temp ++ [zero] in
          (tr, {| gd_status := 0;
                  gd_buffer := Some buffer;
                  gd_buffer_size := buffer_size |}).

(** *** powerdns_get_data_stream *)

(** The loop [while (42) { ... }]: [k] reallocations have been made so
    far.  The result is the events, [status] when the loop is left, and
    [buffer] and [buffer_size] at that point. *)
Fixpoint stream_recv_loop (alloc : nat -> bool) (script : list recv_result)
    (k : nat) (buffer : option (list ascii)) (buffer_size : nat)
    : list (event gauge_t) * Z * option (list ascii) * nat :=
  match script with
  | [] => ([ev_recv TEMP_SIZE], 0%Z, buffer, buffer_size)
  | recv_error :: _ =>
      ([ev_recv TEMP_SIZE; FUNC_ERROR "recv"], (-1)%Z, buffer, buffer_size)
  | recv_data temp :: script' =>
      let status := List.length temp in
      if (status =? 0)%nat
      then ([ev_recv TEMP_SIZE], 0%Z, buffer, buffer_size)
      else if negb (alloc k)
      then ([ev_recv TEMP_SIZE; FUNC_ERROR "realloc"], (-1)%Z,
            buffer, buffer_size)
      else
        (* realloc keeps the first buffer_size bytes; memcpy appends temp;
           buffer[buffer_size] = 0 terminates *)
        let kept := firstn buffer_size
                      (match buffer with Some b => b | None => [] end) in
        let buffer' := kept ++ temp ++ [zero] in
        let '(tr, st, b, n) :=
          stream_recv_loop alloc script' (S k) (Some buffer')
            (buffer_size + status) in
        (ev_recv TEMP_SIZE :: tr, st, b, n)
  end.

Definition powerdns_get_data_stream (item : list_item_t) (io : io_env)
    : list (event gauge_t) * get_data_result :=
  if (io_socket io <? 0)%Z
  then ([ev_socket (socktype item); FUNC_ERROR "socket"], gd_failed (-1))
  else if negb (io_connect io =? 0)%Z
  then ([ev_socket (socktype item); ev_connect (sockaddr item);
         FUNC_ERROR "connect"; ev_close], gd_failed (-1))
  else
    (* strlen + 1: the terminating NUL is sent, too *)
    let sent := list_ascii_of_string (command item) ++ [zero] in
    if (io_send io <? 0)%Z
    then ([ev_socket (socktype item); ev_connect (sockaddr item);
           ev_send sent; FUNC_ERROR "send"; ev_close], gd_failed (-1))
    else
      let '(tr, status, buffer, buffer_size) :=
        stream_recv_loop (io_alloc io) (io_recv io) 0 None 0 in
      let tr := ev_socket (socktype item) :: ev_connect (sockaddr item)
                :: ev_send sent :: tr ++ [ev_close] in
      if (status <? 0)%Z
      then (tr, gd_failed status)                      (* sfree (buffer) *)
      else (tr, {| gd_status := status;
                   gd_buffer := buffer;
                   gd_buffer_size := buffer_size |}).

Definition powerdns_get_data (local_sockpath : option string)
    (item : list_item_t) (io : io_env)
    : list (event gauge_t) * get_data_result :=
  if (socktype item =? SOCK_DGRAM)%Z
  then powerdns_get_data_dgram local_sockpath item io
  else if (socktype item =? SOCK_STREAM)%Z
  then powerdns_get_data_stream item io
  else ([ev_log LOG_ERR "powerdns plugin: Unknown socket type: %i"
           [arg_i (socktype item)]], gd_failed (-1)).

(** *** The collection functions *)

Definition powerdns_read_server (local_sockpath : option string)
    (item : list_item_t) (io : io_env)
    : list (event gauge_t) * outcome Z :=
  let (tr, r) := powerdns_get_data local_sockpath item io in
  if negb (gd_status r =? 0)%Z
  then (tr, Returns (-1)%Z)
  else
    match server_decode (submit (instance item)) (gd_buffer r) with
    | Undefined => (tr, Undefined)
    | Returns tr' => (tr ++ tr', Returns 0%Z)
    end.

Definition powerdns_read_recursor (local_sockpath : option string)
    (item : list_item_t) (io : io_env)
    : list (event gauge_t) * outcome Z :=
  let (tr, r) := powerdns_get_data local_sockpath item io in
  if negb (gd_status r =? 0)%Z
  then (tr, Returns (-1)%Z)
  else if negb (io_strdup io)
  then (tr ++ [FUNC_ERROR "strdup"], Returns (-1)%Z)
  else
    match recursor_decode (submit (instance item)) (command item)
            (gd_buffer r) with
    | Undefined => (tr, Undefined)
    | Returns tr' => (tr ++ tr', Returns 0%Z)
    end.

(** [item->func (item)] *)
Definition call_func (local_sockpath : option string) (item : list_item_t)
    (io : io_env) : list (event gauge_t) * outcome Z :=
  match func item with
  | func_read_server => powerdns_read_server local_sockpath item io
  | func_read_recursor => powerdns_read_recursor local_sockpath item io
  end.

(** *** The plugin's global variables *)

(** Modelled from the spec: the linked list of utils_llist.h
    ([llist_create], [llentry_create], [llist_append], [llist_head] and the
    [next] links), whose code is not part of the plugin.  The design
    document describes it as an ordered collection with [add] and a
    [forEach] that iterates in insertion order: a Rocq list, appended to at
    its end.  [None] is the NULL list, and [llist_head (NULL)] is NULL. *)
Definition llist_t : Type := list list_item_t.

Definition llist_append (l : llist_t) (e : list_item_t) : llist_t :=
  l ++ [e].

Definition llist_head (l : option llist_t) : llist_t :=
  match l with
  | Some l => l
  | None => []
  end.

(** [list] and [local_sockpath]; the former is named [the_list] here. *)
Record plugin_state : Type := {
  the_list : option llist_t;
  local_sockpath : option string
}.

Definition initial_state : plugin_state :=
  {| the_list := None; local_sockpath := None |}.

(** *** powerdns_read *)

(** The loop [for (e = llist_head (list); e != NULL; e = e->next)] from
    the entry [e] on, which is the [k]-th of this cycle; [io k] is what the
    kernel answers while that entry is polled.  The value [item->func]
    returns is not looked at. *)
Fixpoint read_from (lsp : option string) (io : nat -> io_env) (k : nat)
    (e : llist_t) : list (event gauge_t) * outcome Z :=
  match e with
  | [] => ([], Returns 0%Z)
  | item :: next =>
      match call_func lsp item (io k) with
      | (tr, Undefined) => (tr, Undefined)
      | (tr, Returns _) =>
          let (tr', r) := read_from lsp io (S k) next in (tr ++ tr', r)
      end
  end.

Definition powerdns_read (st : plugin_state) (io : nat -> io_env)
    : list (event gauge_t) * outcome Z :=
  read_from (local_sockpath st) io 0 (llist_head (the_list st)).

(** *** Configuration *)

(** [oconfig_value_t] and [oconfig_item_t] of liboconfig; [values_num] and
    [children_num] are the lengths of the two arrays. *)
Inductive oconfig_value_t : Type :=
| OCONFIG_TYPE_STRING (s : string)
| OCONFIG_TYPE_NUMBER (n : Z)
| OCONFIG_TYPE_BOOLEAN (b : bool).

Inductive oconfig_item_t : Type :=
| oconfig_item (key : string) (values : list oconfig_value_t)
    (children : list oconfig_item_t).

Definition key (ci : oconfig_item_t) : string :=
  match ci with oconfig_item k _ _ => k end.
Definition values (ci : oconfig_item_t) : list oconfig_value_t :=
  match ci with oconfig_item _ v _ => v end.
Definition children (ci : oconfig_item_t) : list oconfig_item_t :=
  match ci with oconfig_item _ _ c => c end.

(** The state the configuration callback runs in: the plugin's globals,
    the number of allocations made so far, and the messages logged. *)
Record config_state : Type := {
  cs_plugin : plugin_state;
  cs_heap : nat;
  cs_log : list (event gauge_t)
}.

Definition cfg (A : Type) : Type := config_state -> A * config_state.

Definition cret {A : Type} (a : A) : cfg A := fun s => (a, s).

Definition cbind {A B : Type} (c : cfg A) (k : A -> cfg B) : cfg B :=
  fun s => let (a, s') := c s in k a s'.

Notation "x <- c1 ;; c2" := (cbind c1 (fun x => c2))
  (at level 61, c1 at next level, right associativity).
Notation "c1 ;;; c2" := (cbind c1 (fun _ => c2))
  (at level 61, right associativity).

(** [alloc_ok k]: does the [k]-th allocation of the configuration phase
    ([malloc], [strdup], [llist_create], [llentry_create]) succeed. *)
Context (alloc_ok : nat -> bool).

Definition alloc : cfg bool :=
  fun s => (alloc_ok (cs_heap s),
            {| cs_plugin := cs_plugin s;
               cs_heap := S (cs_heap s);
               cs_log := cs_log s |}).

Definition strdup (s : string) : cfg (option string) :=
  ok <- alloc ;; cret (if ok then Some s else None).

Definition log (level : log_level) (format : string) (args : list log_arg)
    : cfg unit :=
  fun s => (tt, {| cs_plugin := cs_plugin s;
                   cs_heap := cs_heap s;
                   cs_log := cs_log s ++ [ev_log level format args] |}).

Definition get_plugin : cfg plugin_state := fun s => (cs_plugin s, s).

Definition set_plugin (p : plugin_state) : cfg unit :=
  fun s => (tt, {| cs_plugin := p; cs_heap := cs_heap s;
                   cs_log := cs_log s |}).

(** The status returned and the new value of [*dest]. *)
Definition powerdns_config_add_string (name : string) (dest : option string)
    (ci : oconfig_item_t) : cfg (Z * option string) :=
  match values ci with
  | [OCONFIG_TYPE_STRING v] =>
      d <- strdup v ;;
      match d with
      | None => cret ((-1)%Z, None)
      | Some _ => cret (0%Z, d)
      end
  | _ =>
      log LOG_WARNING
        "powerdns plugin: `%s' needs exactly one string argument."
        [arg_s name] ;;;
      cret ((-1)%Z, dest)
  end.

(** The loop over [ci->children] of [powerdns_config_add_server]: the
    status it is left with, [item->command] and [socket_temp]. *)
Fixpoint add_server_options (options : list oconfig_item_t)
    (command socket_temp : option string)
    : cfg (Z * option string * option string) :=
  match options with
  | [] => cret (0%Z, command, socket_temp)
  | option :: options' =>
      r <- (if strcasecmp_eq "Command" (key option)
            then sd <- powerdns_config_add_string "Command" command option ;;
                 cret (fst sd, snd sd, socket_temp)
            else if strcasecmp_eq "Socket" (key option)
            then sd <- powerdns_config_add_string "Socket" socket_temp
                         option ;;
                 cret (fst sd, command, snd sd)
            else log LOG_ERR
                   "powerdns plugin: Option `%s' not allowed here."
                   [arg_s (key option)] ;;;
                 cret ((-1)%Z, command, socket_temp)) ;;
      let '(status, command', socket_temp') := r in
      if negb (status =? 0)%Z
      then cret (status, command', socket_temp')
      else add_server_options options' command' socket_temp'
  end.

(** The defaults chosen by [ci->key]: [func], [socktype], the default
    command and the default socket. *)
Definition server_defaults (k : string)
    : option (func_t * Z * string * string) :=
  if strcasecmp_eq "Server" k
  then Some (func_read_server, SOCK_STREAM, SERVER_COMMAND, SERVER_SOCKET)
  else if strcasecmp_eq "Recursor" k
  then Some (func_read_recursor, SOCK_DGRAM, RECURSOR_COMMAND,
             RECURSOR_SOCKET)
  else None.

(** [powerdns_config_add_server], for the calls [powerdns_config] makes of
    it: [ci->key] is [Server] or [Recursor], whatever the case of its
    letters, and [list] has been created.  For another key the C function
    has no default branch and goes on with [item->func] and
    [item->command] NULL and [socket_temp] uninitialised, and with a NULL
    [list] it hands NULL to [llist_append]; what the definition says there
    ([-1] for another key, an append to the empty list for a NULL list) is
    not a statement about the C function, and no property is stated there. *)
Definition powerdns_config_add_server (ci : oconfig_item_t) : cfg Z :=
  match values ci with
  | [OCONFIG_TYPE_STRING v] =>
      item <- alloc ;;
      if negb item
      then log LOG_ERR "powerdns plugin: malloc failed." [] ;;;
           cret (-1)%Z
      else
        inst <- strdup v ;;
        match inst with
        | None => log LOG_ERR "powerdns plugin: strdup failed." [] ;;;
                  cret (-1)%Z
        | Some inst =>
            match server_defaults (key ci) with
            | None =>
                (* Not reached: powerdns_config passes no other key.  (The
                   C function would go on with socket_temp
                   uninitialised.) *)
                cret (-1)%Z
            | Some (f, st, default_command, default_socket) =>
                command <- strdup default_command ;;
                socket_temp <- strdup default_socket ;;
                r <- add_server_options (children ci) command socket_temp ;;
                let '(status, command, socket_temp) := r in
                if negb (status =? 0)%Z
                then cret (-1)%Z
                else
                  match socket_temp, command with
                  | None, _ =>
                      log LOG_ERR "powerdns plugin: socket_temp == NULL."
                        [] ;;;
                      cret (-1)%Z
                  | Some _, None =>
                      log LOG_ERR "powerdns plugin: item->command == NULL."
                        [] ;;;
                      cret (-1)%Z
                  | Some sock, Some cmd =>
                      e <- alloc ;;
                      if negb e
                      then log LOG_ERR
                             "powerdns plugin: llentry_create failed." [] ;;;
                           cret (-1)%Z
                      else
                        p <- get_plugin ;;
                        set_plugin
                          {| the_list :=
                               Some (llist_append (llist_head (the_list p))
                                       {| func := f;
                                          instance := inst;
                                          command := cmd;
                                          sockaddr :=
                                            sstrncpy sock (UNIX_PATH_MAX h);
                                          socktype := st |});
                             local_sockpath := local_sockpath p |} ;;;
                        log LOG_DEBUG
                          "powerdns plugin: Add server: instance = %s;"
                          [arg_s inst] ;;;
                        cret 0%Z
                  end
            end
        end
  | _ =>
      log LOG_WARNING
        "powerdns plugin: `%s' needs exactly one string argument."
        [arg_s (key ci)] ;;;
      cret (-1)%Z
  end.

(** The loop over [ci->children] of [powerdns_config]. *)
Fixpoint config_options (options : list oconfig_item_t) : cfg Z :=
  match options with
  | [] => cret 0%Z
  | option :: options' =>
      (if strcasecmp_eq "Server" (key option)
          || strcasecmp_eq "Recursor" (key option)
       then powerdns_config_add_server option ;;; cret tt
       else cret tt) ;;;
      if strcasecmp_eq "LocalSocket" (key option)
      then
        temp <- strdup (key option) ;;
        match temp with
        | None => cret 1%Z
        | Some _ =>
            p <- get_plugin ;;
            set_plugin {| the_list := the_list p;
                          local_sockpath := temp |} ;;;
            config_options options'
        end
      else
        log LOG_ERR "powerdns plugin: Option `%s' not allowed here."
          [arg_s (key option)] ;;;
        config_options options'
  end.

Definition powerdns_config (ci : oconfig_item_t) : cfg Z :=
  (* the pointer printed for %p is not recorded *)
  log LOG_DEBUG "powerdns plugin: powerdns_config (ci = %p);" [] ;;;
  p <- get_plugin ;;
  match the_list p with
  | Some _ => config_options (children ci)
  | None =>
      l <- alloc ;;                                    (* llist_create *)
      if negb l
      then log LOG_ERR "powerdns plugin: `llist_create' failed." [] ;;;
           cret (-1)%Z
      else
        set_plugin {| the_list := Some [];
                      local_sockpath := local_sockpath p |} ;;;
        config_options (children ci)
  end.

(** The globals after the daemon has handed the plugin's configuration
    block to a freshly loaded plugin. *)
Definition configured (ci : oconfig_item_t) : plugin_state :=
  cs_plugin (snd (powerdns_config ci
                    {| cs_plugin := initial_state;
                       cs_heap := 0;
                       cs_log := [] |})).

End Plugin.

(** ** The decoders, as the design document words them *)

(** What the Comma-Pair Decoder makes of one token that contains [=]: the
    token is split at the first [=]; an empty value yields no pair. *)
Definition pair_of_token (tok : string) : list (string * string) :=
  match split_at_char "=" tok with
  | Some (k, EmptyString) => []
  | Some (k, v) => [(k, v)]
  | None => []
  end.

Definition has_equals (tok : string) : bool :=
  match split_at_char "=" tok with
  | Some _ => true
  | None => false
  end.

(** The Comma-Pair Decoder over the tokens of a reply: tokens are decoded
    in order up to the first one without [=]. *)
Fixpoint comma_pairs (toks : list string) : list (string * string) :=
  match toks with
  | [] => []
  | tok :: toks' =>
      if has_equals tok then pair_of_token tok ++ comma_pairs toks' else []
  end.

(** The Positional Decoder: the names are the tokens of the command after
    its verb, the values the tokens of the reply; the N-th name goes with
    the N-th value, up to the end of the shorter sequence. *)
Definition positional_pairs (cmd reply : string) : list (string * string) :=
  combine (tl (tokens KEY_DELIM cmd)) (tokens VALUE_DELIM reply).

(** [resolve] of the design document: the first entry of the table whose
    raw name is exactly [pdns_type]. *)
Definition resolve (pdns_type : string) : option statname_lookup_t :=
  find (fun e => String.eqb (name e) pdns_type) lookup_table.

(** The number of characters the conversion required by a data source of
    type [t] consumes of [value]. *)
Definition consumed {gauge_t : Type} (h : host gauge_t) (t : ds_type_t)
    (value : string) : nat :=
  match t with
  | DS_TYPE_GAUGE => snd (strtod h value)
  | DS_TYPE_COUNTER => snd (strtoll h value)
  end.

(** The [unlink] before [bind] failed for a reason other than [ENOENT]. *)
Definition unlink_refused (io : io_env) : bool :=
  negb (fst (io_unlink io) =? 0)%Z && negb (snd (io_unlink io) =? ENOENT)%Z.

(** The chunks a stream peer gets across before [recv] returns 0 or fails. *)
Fixpoint delivered (script : list recv_result) : list (list ascii) :=
  match script with
  | recv_data temp :: script' =>
      match temp with
      | [] => []
      | _ => temp :: delivered script'
      end
  | _ => []
  end.

(** [buffer] is NULL and nothing was received, or it holds [content] and
    the terminator. *)
Definition holds (buffer : option (list ascii)) (content : list ascii) : Prop :=
  match buffer with
  | Some b => b = content ++ [zero]
  | None => content = []
  end.

(** Handing pairs to an action one after the other. *)
Definition each_pair {E : Type} (act : string -> string -> list E)
    (pairs : list (string * string)) : list E :=
  flat_map (fun kv => act (fst kv) (snd kv)) pairs.

(** The events of polling the entries [e], the first of which is the
    [k]-th of the cycle, each taken on its own. *)
Fixpoint poll_each {gauge_t : Type} (h : host gauge_t) (lsp : option string)
    (io : nat -> io_env) (k : nat) (e : list list_item_t)
    : list (list (event gauge_t)) :=
  match e with
  | [] => []
  | item :: next =>
      fst (call_func h lsp item (io k)) :: poll_each h lsp io (S k) next
  end.

(** The number of [unlink] calls in a run. *)
Definition unlink_attempts {gauge_t : Type} (tr : list (event gauge_t)) : nat :=
  List.length (filter is_unlink tr).

(** ** A host and targets for examples *)

Module Demo.

Definition is_digit (c : ascii) : bool :=
  let n := nat_of_ascii c in ((48 <=? n)%nat && (n <=? 57)%nat)%bool.

(** The value of a leading run of decimal digits, with the number of
    characters it takes. *)
Fixpoint digits (acc : Z) (s : string) : Z * nat :=
  match s with
  | EmptyString => (acc, 0)
  | String c s' =>
      if is_digit c
      then let (v, n) := digits (10 * acc + Z.of_nat (nat_of_ascii c - 48)) s'
           in (v, S n)
      else (acc, 0)
  end.

Definition get_ds (t : string) : option data_set_t :=
  Some {| set_type := t;
          ds := [ {| ds_name := "value";
                     ds_type := if String.eqb t "latency"
                                then DS_TYPE_GAUGE else DS_TYPE_COUNTER |} ] |}.

(** A host whose memory holds [past] behind the lookup table. *)
Definition host_with (past : option string) : host Z :=
  {| strtod := digits 0;
     strtoll := digits 0;
     plugin_get_ds := get_ds;
     time_now := 1200000000;
     hostname_g := "localhost";
     DATA_MAX_NAME_LEN := 64;
     UNIX_PATH_MAX := 108;
     LOCALSTATEDIR := "/var";
     PACKAGE_NAME := "collectd";
     past_lookup_table := past |}.

Definition demo_host : host Z := host_with None.

Definition always (k : nat) : bool := true.

(** A block holding a C string: its characters and the terminating NUL. *)
Definition block (s : string) : list ascii := list_ascii_of_string s ++ [zero].

Definition bytes (s : string) : list ascii := list_ascii_of_string s.

Definition server_item : list_item_t :=
  {| func := func_read_server; instance := "auth"; command := SERVER_COMMAND;
     sockaddr := SERVER_SOCKET; socktype := SOCK_STREAM |}.

Definition recursor_item : list_item_t :=
  {| func := func_read_recursor; instance := "rec";
     command := "get questions cache-hits";
     sockaddr := RECURSOR_SOCKET; socktype := SOCK_DGRAM |}.

(** A target that decodes positionally what it reads from a stream. *)
Definition positional_item : list_item_t :=
  {| func := func_read_recursor; instance := "rec";
     command := "get foo bar baz";
     sockaddr := RECURSOR_SOCKET; socktype := SOCK_STREAM |}.

(** The configuration block
    [<Plugin powerdns> LocalSocket "/tmp/pdns-local" </Plugin>]. *)
Definition local_socket_block : oconfig_item_t :=
  oconfig_item "Plugin" [OCONFIG_TYPE_STRING "powerdns"]
    [oconfig_item "LocalSocket" [OCONFIG_TYPE_STRING "/tmp/pdns-local"] []].

(** Every call succeeds and the peer sends [chunks], one per [recv]. *)
Definition io_ok (chunks : list (list ascii)) : io_env :=
  {| io_socket := 3; io_unlink := (-1, ENOENT)%Z; io_bind := 0; io_chmod := 0;
     io_connect := 0; io_send := 6; io_recv := map recv_data chunks;
     io_alloc := always; io_strdup := true |}.

(** [socket] fails. *)
Definition io_no_socket : io_env :=
  {| io_socket := -1; io_unlink := (0, 0)%Z; io_bind := 0; io_chmod := 0;
     io_connect := 0; io_send := 0; io_recv := [];
     io_alloc := always; io_strdup := true |}.

End Demo.

(** ** Shutdown *)

(** [powerdns_shutdown]: nothing to do without a list; else every item is
    released, the list is destroyed and [list] is reset to NULL.
    [local_sockpath] is left as it is.  The result is the globals after the
    call and the value returned. *)
Definition powerdns_shutdown (st : plugin_state) : plugin_state * Z :=
  match the_list st with
  | None => (st, 0%Z)
  | Some _ =>
      ({| the_list := None; local_sockpath := local_sockpath st |}, 0%Z)
  end.

(** ** Vocabulary for the further properties *)

(** No character of [s] is one of [delim]. *)
Fixpoint free_of (delim : string) (s : string) : bool :=
  match s with
  | EmptyString => true
  | String c s' => negb (is_delim delim c) && free_of delim s'
  end.

(** [s] holds no NUL, so it can be stored as a C string. *)
Definition nul_free (s : string) : bool := free_of (String zero EmptyString) s.

(** The strings [toks], separated by [sep]. *)
Fixpoint join (sep : ascii) (toks : list string) : string :=
  match toks with
  | [] => EmptyString
  | [t] => t
  | t :: toks' => (t ++ String sep (join sep toks'))%string
  end.

(** [name=value] *)
Definition encode_pair (kv : string * string) : string :=
  (fst kv ++ String "=" (snd kv))%string.

(** The memory block in which a C string lies, followed by anything. *)
Definition stored (s : string) (after : list ascii) : list ascii :=
  list_ascii_of_string s ++ zero :: after.

Definition is_close {gauge_t : Type} (e : event gauge_t) : bool :=
  match e with ev_close => true | _ => false end.

Definition is_socket {gauge_t : Type} (e : event gauge_t) : bool :=
  match e with ev_socket _ => true | _ => false end.

Definition is_recv {gauge_t : Type} (e : event gauge_t) : bool :=
  match e with ev_recv _ => true | _ => false end.

(** A call into the daemon's plugin API. *)
Definition is_plugin_call {gauge_t : Type} (e : event gauge_t) : bool :=
  is_get_ds e || is_dispatch e.

Definition count {A : Type} (p : A -> bool) (l : list A) : nat :=
  List.length (filter p l).

(** The value [submit] stores for a data source of type [t]. *)
Definition converted {gauge_t : Type} (h : host gauge_t) (t : ds_type_t)
    (value : string) : value_t gauge_t :=
  match t with
  | DS_TYPE_GAUGE => gauge (fst (strtod h value))
  | DS_TYPE_COUNTER => counter (fst (strtoll h value) mod 2 ^ 64)%Z
  end.

(** The value list [submit] dispatches for the entry [e]. *)
Definition value_list_for {gauge_t : Type} (h : host gauge_t)
    (plugin_instance : string) (e : statname_lookup_t) (v : value_t gauge_t)
    : value_list_t gauge_t :=
  {| vl_values := [v];
     vl_time := time_now h;
     vl_host := sstrncpy (hostname_g h) (DATA_MAX_NAME_LEN h);
     vl_plugin := sstrncpy "powerdns" (DATA_MAX_NAME_LEN h);
     vl_plugin_instance := sstrncpy plugin_instance (DATA_MAX_NAME_LEN h);
     vl_type_instance :=
       match type_instance e with
       | Some ti => sstrncpy ti (DATA_MAX_NAME_LEN h)
       | None => EmptyString
       end |}.

(** *** What a configuration block asks for *)

(** The single string argument of an option, if it has exactly that. *)
Definition option_value (o : oconfig_item_t) : option string :=
  match values o with
  | [OCONFIG_TYPE_STRING v] => Some v
  | _ => None
  end.

(** The command and the socket a block ends up with, starting from [cmd]
    and [sock] and reading the nested options in order; [None] when an
    option is neither [Command] nor [Socket] or lacks its string. *)
Fixpoint block_options (options : list oconfig_item_t) (cmd sock : string)
    : option (string * string) :=
  match options with
  | [] => Some (cmd, sock)
  | o :: options' =>
      if strcasecmp_eq "Command" (key o)
      then match option_value o with
           | Some v => block_options options' v sock
           | None => None
           end
      else if strcasecmp_eq "Socket" (key o)
      then match option_value o with
           | Some v => block_options options' cmd v
           | None => None
           end
      else None
  end.

(** The target a [Server] or [Recursor] block describes, if it is well
    formed. *)
Definition target_of_block {gauge_t : Type} (h : host gauge_t)
    (ci : oconfig_item_t) : option list_item_t :=
  match option_value ci, server_defaults (key ci) with
  | Some inst, Some (f, st, default_command, default_socket) =>
      match block_options (children ci) default_command default_socket with
      | Some (cmd, sock) =>
          Some {| func := f; instance := inst; command := cmd;
                  sockaddr := sstrncpy sock (UNIX_PATH_MAX h);
                  socktype := st |}
      | None => None
      end
  | _, _ => None
  end.

Definition is_target_block (o : oconfig_item_t) : bool :=
  strcasecmp_eq "Server" (key o) || strcasecmp_eq "Recursor" (key o).

(** The targets the children of a plugin block describe, in their order. *)
Fixpoint targets_of {gauge_t : Type} (h : host gauge_t)
    (options : list oconfig_item_t) : list list_item_t :=
  match options with
  | [] => []
  | o :: options' =>
      (if is_target_block o
       then match target_of_block h o with
            | Some item => [item]
            | None => []
            end
       else []) ++ targets_of h options'
  end.

(** The value [local_sockpath] has after the options, starting from [lsp]. *)
Fixpoint local_socket_after (options : list oconfig_item_t)
    (lsp : option string) : option string :=
  match options with
  | [] => lsp
  | o :: options' =>
      local_socket_after options'
        (if strcasecmp_eq "LocalSocket" (key o) then Some (key o) else lsp)
  end.

(** What holds of every target the configuration enters in the list: the
    collection function and the socket type go together, and the socket
    path fits [sun_path] with its terminator. *)
Definition item_ok {gauge_t : Type} (h : host gauge_t) (item : list_item_t)
    : Prop :=
  ((func item = func_read_server /\ socktype item = SOCK_STREAM)
   \/ (func item = func_read_recursor /\ socktype item = SOCK_DGRAM))
  /\ String.length (sockaddr item) <= UNIX_PATH_MAX h - 1.

(** A string that can stand as a token between the delimiters [delim]. *)
Definition token_ok (delim : string) (t : string) : bool :=
  nonempty t && free_of delim t && nul_free t.

(** A pair the Comma-Pair Decoder can hand out: the name has no [=], the
    value is not empty, and neither holds a comma or a NUL. *)
Definition comma_pair_ok (kv : string * string) : bool :=
  free_of "," (fst kv) && free_of "=" (fst kv) && nul_free (fst kv)
  && nonempty (snd kv) && free_of "," (snd kv) && nul_free (snd kv).


Definition is_log {gauge_t : Type} (e : event gauge_t) : bool :=
  match e with ev_log _ _ _ => true | _ => false end.

(** [socket] was called and returned a descriptor. *)
Definition socket_obtained (item : list_item_t) (io : io_env) : bool :=
  ((socktype item =? SOCK_DGRAM)%Z || (socktype item =? SOCK_STREAM)%Z)
  && (0 <=? io_socket io)%Z.

(** The table entry and the data source type under which [submit] can
    dispatch [value] for the raw name [pdns_type]: the name resolves, the
    daemon knows the entry's type with exactly one data source, and the
    conversion consumes at least one character. *)
Definition dispatchable {gauge_t : Type} (h : host gauge_t)
    (pdns_type value : string) : option (statname_lookup_t * ds_type_t) :=
  match resolve pdns_type with
  | None => None
  | Some e =>
      match plugin_get_ds h (type e) with
      | None => None
      | Some d =>
          match ds d with
          | [d0] =>
              if (consumed h (ds_type d0) value =? 0)%nat then None
              else Some (e, ds_type d0)
          | _ => None
          end
      end
  end.

(** A nested option [powerdns_config_add_server] accepts. *)
Definition option_ok (o : oconfig_item_t) : bool :=
  (strcasecmp_eq "Command" (key o) || strcasecmp_eq "Socket" (key o))
  && match option_value o with Some _ => true | None => false end.

(** The globals after [item] has been appended to the list. *)
Definition with_target (p : plugin_state) (item : list_item_t)
    : plugin_state :=
  {| the_list := Some (llist_append (llist_head (the_list p)) item);
     local_sockpath := local_sockpath p |}.

(** A command or socket string that is still NULL, or this one. *)
Definition unset_or (d : option string) (x : string) : Prop :=
  d = None \/ d = Some x.

(** The configuration state after one more allocation, and after one more
    message. *)
Definition bump {gauge_t : Type} (s : config_state (gauge_t := gauge_t))
    : config_state (gauge_t := gauge_t) :=
  {| cs_plugin := cs_plugin s; cs_heap := S (cs_heap s); cs_log := cs_log s |}.

Definition logged {gauge_t : Type} (s : config_state (gauge_t := gauge_t))
    (e : event gauge_t) : config_state (gauge_t := gauge_t) :=
  {| cs_plugin := cs_plugin s; cs_heap := cs_heap s;
     cs_log := cs_log s ++ [e] |}.

(** A plugin block with a server whose socket is overridden, a recursor
    block that is rejected for an option it may not have, a [LocalSocket]
    option, and a recursor whose command is overridden. *)
Definition example_block : oconfig_item_t :=
  oconfig_item "Plugin" [OCONFIG_TYPE_STRING "powerdns"]
    [oconfig_item "Server" [OCONFIG_TYPE_STRING "auth"]
       [oconfig_item "Socket" [OCONFIG_TYPE_STRING "/tmp/auth.sock"] []];
     oconfig_item "Recursor" [OCONFIG_TYPE_STRING "broken"]
       [oconfig_item "Port" [OCONFIG_TYPE_NUMBER 53] []];
     oconfig_item "LocalSocket" [OCONFIG_TYPE_STRING "/tmp/local"] [];
     oconfig_item "recursor" [OCONFIG_TYPE_STRING "rec"]
       [oconfig_item "COMMAND" [OCONFIG_TYPE_STRING "get questions"] []]].

(** The state in which the daemon first calls [powerdns_config]. *)
Definition fresh_config_state {gauge_t : Type}
    : config_state (gauge_t := gauge_t) :=
  {| cs_plugin := initial_state; cs_heap := 0; cs_log := [] |}.

(** *** What the kernel's answers make of a transport call *)

(** The receive loop of the stream strategy ends well on [script], [k]
    reallocations having been made: no [recv] fails before the end of the
    stream, and the reallocation for every chunk succeeds. *)
Fixpoint stream_completes (alloc : nat -> bool) (script : list recv_result)
    (k : nat) : bool :=
  match script with
  | [] => true
  | recv_error :: _ => false
  | recv_data [] :: _ => true
  | recv_data (_ :: _) :: script' =>
      alloc k && stream_completes alloc script' (S k)
  end.

(** For each step of the datagram exchange, in the order [bind], [chmod],
    [connect], [send], [recv]: would the step fail, judged as the code
    judges it. *)
Definition dgram_step_failures (io : io_env) : list bool :=
  [ negb (io_bind io =? 0)%Z;
    negb (io_chmod io =? 0)%Z;
    negb (io_connect io =? 0)%Z;
    (io_send io <? 0)%Z;
    (fst (recv_once io) <? 0)%Z ].

Definition dgram_step_names : list string :=
  ["bind"; "chmod"; "connect"; "send"; "recv"].

(** The position of the first [true]. *)
Fixpoint first_true (l : list bool) : option nat :=
  match l with
  | [] => None
  | true :: _ => Some 0
  | false :: l' => option_map S (first_true l')
  end.

(** Every step of [powerdns_get_data] succeeds: the socket type is known,
    [socket] returns a descriptor, and then, for a datagram socket, the
    first [unlink] is not refused, no step of the exchange fails and
    [malloc] succeeds; for a stream socket, [connect] and [send] succeed
    and the receive loop ends well. *)
Definition transport_succeeds (item : list_item_t) (io : io_env) : bool :=
  if (socktype item =? SOCK_DGRAM)%Z
  then (0 <=? io_socket io)%Z
       && negb (unlink_refused io)
       && match first_true (dgram_step_failures io) with
          | None => true
          | Some _ => false
          end
       && io_alloc io 0
  else if (socktype item =? SOCK_STREAM)%Z
  then (0 <=? io_socket io)%Z
       && (io_connect io =? 0)%Z
       && (0 <=? io_send io)%Z
       && stream_completes (io_alloc io) (io_recv io) 0
  else false.

(** * Properties *)

(** ** strtok_r enumerates the tokens *)

Section TokenFacts.
Variable delim : string.

Lemma tokens_delim (c : ascii) (s : string) :
  is_delim delim c = true -> tokens delim (String c s) = tokens delim s.
Proof.
  intros Hc. unfold tokens. simpl. rewrite Hc. reflexivity.
Qed.

Lemma tokens_skip_delims (s : string) :
  tokens delim (skip_delims delim s) = tokens delim s.
Proof.
  induction s as [|c s IH]; simpl; [reflexivity|].
  destruct (is_delim delim c) eqn:Hc; [|reflexivity].
  rewrite IH. symmetry. now apply tokens_delim.
Qed.

Lemma skip_delims_length (s : string) :
  String.length (skip_delims delim s) <= String.length s.
Proof.
  induction s as [|c s IH]; simpl; [lia|].
  destruct (is_delim delim c); simpl; lia.
Qed.

Lemma fields_cut_token (s tok : string) (r : option string) :
  cut_token delim s = (tok, r) ->
  fields delim s = match r with
                   | None => [tok]
                   | Some rest => tok :: fields delim rest
                   end.
Proof.
  revert tok r. induction s as [|c s IH]; intros tok r; simpl.
  - intros [= <- <-]. reflexivity.
  - destruct (is_delim delim c).
    + intros [= <- <-]. reflexivity.
    + destruct (cut_token delim s) as [tok' r'] eqn:Hcut.
      intros [= <- <-]. rewrite (IH _ _ eq_refl). now destruct r'.
Qed.

Lemma cut_token_length (s tok rest : string) :
  cut_token delim s = (tok, Some rest) ->
  String.length rest < String.length s.
Proof.
  revert tok. induction s as [|c s IH]; intros tok; simpl.
  - discriminate.
  - destruct (is_delim delim c).
    + intros [= <- <-]. lia.
    + destruct (cut_token delim s) as [tok' r'] eqn:Hcut.
      intros [= <- ->]. specialize (IH _ eq_refl). lia.
Qed.

Lemma cut_token_nonempty (c : ascii) (s tok : string) (r : option string) :
  is_delim delim c = false ->
  cut_token delim (String c s) = (tok, r) -> nonempty tok = true.
Proof.
  simpl. intros ->. destruct (cut_token delim s). now intros [= <- <-].
Qed.

Lemma skip_delims_head (s : string) (c : ascii) (s1 : string) :
  skip_delims delim s = String c s1 -> is_delim delim c = false.
Proof.
  induction s as [|a s IH]; simpl; [discriminate|].
  destruct (is_delim delim a) eqn:Ha; [exact IH|].
  now intros [= <- <-].
Qed.

(** What a call of [strtok_r] that scans the string [s] returns: NULL when
    [s] has no token, else the first token, [save_ptr] being left at a
    shorter string that holds the remaining tokens. *)
Lemma strtok_r_scan (s : string) :
  match tokens delim s with
  | [] => forall sp, strtok_r (Some s) delim sp = Returns (None, Some EmptyString)
  | tok :: toks =>
      exists rest,
        (forall sp, strtok_r (Some s) delim sp = Returns (Some tok, Some rest))
        /\ tokens delim rest = toks
        /\ String.length rest < String.length s
  end.
Proof.
  rewrite <- tokens_skip_delims. unfold strtok_r.
  pose proof (skip_delims_length s) as Hlen.
  destruct (skip_delims delim s) as [|c s1] eqn:Hskip.
  - simpl. reflexivity.
  - pose proof (skip_delims_head _ _ _ Hskip) as Hc.
    destruct (cut_token delim (String c s1)) as [tok r] eqn:Hcut.
    pose proof (cut_token_nonempty _ _ _ _ Hc Hcut) as Hne.
    unfold tokens. rewrite (fields_cut_token _ _ _ Hcut).
    destruct r as [rest|]; simpl; rewrite Hne.
    + exists rest. repeat split.
      apply cut_token_length in Hcut. simpl in Hcut, Hlen. lia.
    + exists EmptyString. repeat split. simpl in *. lia.
Qed.

(** The same for a call with a NULL first argument, which scans
    [*save_ptr]. *)
Lemma strtok_r_resume (s : string) :
  strtok_r None delim (Some s) = strtok_r (Some s) delim None.
Proof. reflexivity. Qed.

End TokenFacts.

(** ** The decoding loops compute the decoders of the design document *)

Section DecoderFacts.
Context {E : Type} (act : string -> string -> list E).

Lemma strtok_r_scanned (dummy saveptr : option string) (delim s : string) :
  scanned dummy saveptr = Some s ->
  strtok_r dummy delim saveptr = strtok_r (Some s) delim None.
Proof.
  unfold scanned, strtok_r. destruct dummy; [intros [= ->]|intros ->]; reflexivity.
Qed.

Lemma each_pair_app (p q : list (string * string)) :
  each_pair act (p ++ q) = each_pair act p ++ each_pair act q.
Proof. apply flat_map_app. Qed.

Lemma each_pair_pair_of_token (tok k v : string) :
  split_at_char "=" tok = Some (k, v) ->
  each_pair act (pair_of_token tok)
  = match v with EmptyString => [] | _ => act k v end.
Proof.
  unfold pair_of_token. intros ->. destruct v; simpl; [reflexivity|].
  apply app_nil_r.
Qed.

Lemma read_server_loop_tokens (fuel : nat) :
  forall (s : string) (dummy saveptr : option string),
    scanned dummy saveptr = Some s ->
    String.length s < fuel ->
    read_server_loop act fuel dummy saveptr
    = Returns (each_pair act (comma_pairs (tokens "," s))).
Proof.
  induction fuel as [|fuel IH]; intros s dummy saveptr Hscan Hlen; [lia|].
  simpl. rewrite (strtok_r_scanned _ _ _ _ Hscan).
  pose proof (strtok_r_scan "," s) as Htok.
  destruct (tokens "," s) as [|tok toks].
  - rewrite Htok. reflexivity.
  - destruct Htok as (rest & Hcall & Hrest & Hshort).
    rewrite Hcall. simpl. unfold has_equals.
    destruct (split_at_char "=" tok) as [[k v]|] eqn:Hsplit; [|reflexivity].
    rewrite (IH rest None (Some rest) eq_refl) by lia.
    rewrite Hrest, each_pair_app, (each_pair_pair_of_token _ _ _ Hsplit).
    now destruct v.
Qed.

Lemma read_recursor_loop_tokens (fuel : nat) :
  forall (sv sk : string) (dummy value_saveptr : option string),
    scanned dummy value_saveptr = Some sv ->
    String.length sv < fuel ->
    read_recursor_loop act fuel dummy value_saveptr (Some sk)
    = Returns (each_pair act
                 (combine (tokens KEY_DELIM sk) (tokens VALUE_DELIM sv))).
Proof.
  induction fuel as [|fuel IH]; intros sv sk dummy vsp Hscan Hlen; [lia|].
  simpl. rewrite (strtok_r_scanned _ _ _ _ Hscan).
  pose proof (strtok_r_scan VALUE_DELIM sv) as Hval.
  destruct (tokens VALUE_DELIM sv) as [|v vs].
  - rewrite Hval. now rewrite combine_nil.
  - destruct Hval as (vrest & Hvcall & Hvrest & Hvshort).
    rewrite Hvcall, strtok_r_resume.
    pose proof (strtok_r_scan KEY_DELIM sk) as Hkey.
    destruct (tokens KEY_DELIM sk) as [|k ks].
    + rewrite Hkey. reflexivity.
    + destruct Hkey as (krest & Hkcall & Hkrest & _).
      rewrite Hkcall.
      rewrite (IH vrest krest None (Some vrest) eq_refl) by lia.
      rewrite Hvrest, Hkrest. simpl. unfold each_pair. simpl.
      reflexivity.
Qed.

Lemma of_block_length (b : list ascii) :
  String.length (of_block b) <= List.length b.
Proof.
  induction b as [|c b IH]; simpl; [lia|].
  destruct (Ascii.eqb c zero); simpl; lia.
Qed.

(** The comma-pair loop of [powerdns_read_server], run on a buffer, handles
    exactly the pairs of [comma_pairs], in their order. *)
Lemma server_decode_tokens (buffer : list ascii) :
  server_decode act (Some buffer)
  = Returns (each_pair act (comma_pairs (tokens "," (of_block buffer)))).
Proof.
  unfold server_decode. apply read_server_loop_tokens; [reflexivity|].
  pose proof (of_block_length buffer). simpl. lia.
Qed.

(** The positional loop of [powerdns_read_recursor] handles exactly the
    pairs of [positional_pairs], in their order. *)
Lemma recursor_decode_tokens (cmd : string) (buffer : list ascii) :
  recursor_decode act cmd (Some buffer)
  = Returns (each_pair act (positional_pairs cmd (of_block buffer))).
Proof.
  unfold recursor_decode, positional_pairs.
  pose proof (strtok_r_scan KEY_DELIM cmd) as Hkey.
  pose proof (of_block_length buffer) as Hlen.
  destruct (tokens KEY_DELIM cmd) as [|verb ks].
  - rewrite Hkey.
    rewrite (read_recursor_loop_tokens _ (of_block buffer) EmptyString)
      by (reflexivity || (simpl; lia)).
    reflexivity.
  - destruct Hkey as (krest & Hkcall & Hkrest & _). rewrite Hkcall.
    rewrite (read_recursor_loop_tokens _ (of_block buffer) krest)
      by (reflexivity || (simpl; lia)).
    now rewrite Hkrest.
Qed.

End DecoderFacts.

Lemma each_pair_pair_of (pairs : list (string * string)) :
  each_pair pair_of pairs = pairs.
Proof.
  induction pairs as [|[k v] pairs IH]; [reflexivity|].
  unfold each_pair in *. simpl. now rewrite IH.
Qed.

Lemma server_pairs_tokens (buffer : list ascii) :
  server_pairs (Some buffer)
  = Returns (comma_pairs (tokens "," (of_block buffer))).
Proof.
  unfold server_pairs. now rewrite server_decode_tokens, each_pair_pair_of.
Qed.

Lemma recursor_pairs_tokens (cmd : string) (buffer : list ascii) :
  recursor_pairs cmd (Some buffer)
  = Returns (positional_pairs cmd (of_block buffer)).
Proof.
  unfold recursor_pairs. now rewrite recursor_decode_tokens, each_pair_pair_of.
Qed.

(** A token without [=] ends the decoding: what follows it is not looked
    at. *)
Lemma comma_pairs_stop (toks1 : list string) (tok : string)
    (toks2 : list string) :
  forallb has_equals toks1 = true ->
  has_equals tok = false ->
  comma_pairs (toks1 ++ tok :: toks2) = flat_map pair_of_token toks1.
Proof.
  intros Hall Htok. induction toks1 as [|t toks1 IH]; simpl.
  - now rewrite Htok.
  - simpl in Hall. apply andb_prop in Hall as [Ht Hall].
    now rewrite Ht, IH.
Qed.

(** ** submit *)

Section SubmitFacts.
Context {gauge_t : Type} (h : host gauge_t).

Lemma scan_find_none (pdns_type : string) (tbl : list statname_lookup_t) :
  forall i,
    find (fun e => String.eqb (name e) pdns_type) tbl = None ->
    scan tbl pdns_type i = i + List.length tbl.
Proof.
  induction tbl as [|e tbl IH]; intros i; simpl; [lia|].
  destruct (String.eqb (name e) pdns_type); [discriminate|].
  intros Hnone. rewrite (IH (S i) Hnone). lia.
Qed.

Lemma scan_find_some (pdns_type : string) (tbl : list statname_lookup_t)
    (e : statname_lookup_t) :
  forall i,
    find (fun e => String.eqb (name e) pdns_type) tbl = Some e ->
    exists n, scan tbl pdns_type i = i + n /\ nth_error tbl n = Some e.
Proof.
  induction tbl as [|e' tbl IH]; intros i; simpl; [discriminate|].
  destruct (String.eqb (name e') pdns_type).
  - intros [= ->]. exists 0. split; [lia|reflexivity].
  - intros Hfind. destruct (IH (S i) Hfind) as (n & Hscan & Hnth).
    exists (S n). split; [lia|exact Hnth].
Qed.

(** When no entry matches, the loop of [submit] is left with
    [i = lookup_table_length]. *)
Lemma submit_index_unresolved (pdns_type : string) :
  resolve pdns_type = None -> submit_index pdns_type = lookup_table_length.
Proof.
  intros Hnone. unfold submit_index.
  now rewrite (scan_find_none _ _ 0 Hnone).
Qed.

(** When an entry matches, the loop is left at the first such entry. *)
Lemma submit_index_resolved (pdns_type : string) (e : statname_lookup_t) :
  resolve pdns_type = Some e ->
  nth_error lookup_table (submit_index pdns_type) = Some e.
Proof.
  intros Hsome. unfold submit_index.
  destruct (scan_find_some _ _ _ 0 Hsome) as (n & -> & Hnth). exact Hnth.
Qed.

Lemma submit_unresolved (plugin_instance pdns_type value : string) :
  resolve pdns_type = None ->
  submit h plugin_instance pdns_type value
  = match past_lookup_table h with
    | None => []
    | Some _ =>
        [ev_log LOG_DEBUG
           "powerdns plugin: submit: Not found in lookup table: %s = %s;"
           [arg_s pdns_type; arg_s value]]
    end.
Proof.
  intros Hnone. unfold submit, table_type_at.
  rewrite (submit_index_unresolved _ Hnone).
  replace (nth_error lookup_table lookup_table_length)
    with (@None statname_lookup_t) by reflexivity.
  rewrite Nat.leb_refl. reflexivity.
Qed.

Lemma submit_resolved (plugin_instance pdns_type value : string)
    (e : statname_lookup_t) :
  resolve pdns_type = Some e ->
  submit h plugin_instance pdns_type value
  = ev_plugin_get_ds (type e) ::
    match plugin_get_ds h (type e) with
    | None =>
        [ev_log LOG_ERR
           "powerdns plugin: The lookup table returned type `%s', but I cannot find it via `plugin_get_ds'."
           [arg_s (type e)]]
    | Some d =>
        match ds d with
        | [d0] =>
            match convert h (ds_type d0) value with
            | inl err => [err]
            | inr v =>
                [ev_plugin_dispatch_values (type e)
                   {| vl_values := [v];
                      vl_time := time_now h;
                      vl_host := sstrncpy (hostname_g h) (DATA_MAX_NAME_LEN h);
                      vl_plugin := sstrncpy "powerdns" (DATA_MAX_NAME_LEN h);
                      vl_plugin_instance :=
                        sstrncpy plugin_instance (DATA_MAX_NAME_LEN h);
                      vl_type_instance :=
                        match type_instance e with
                        | Some ti => sstrncpy ti (DATA_MAX_NAME_LEN h)
                        | None => EmptyString
                        end |}]
            end
        | _ =>
            [ev_log LOG_ERR
               "powerdns plugin: type `%s' has %i data sources, but I can only handle one."
               [arg_s (type e); arg_i (ds_num d)]]
        end
    end.
Proof.
  intros Hsome. pose proof (submit_index_resolved _ _ Hsome) as Hnth.
  unfold submit, table_type_at. rewrite Hnth.
  assert (Hlt : submit_index pdns_type < lookup_table_length).
  { apply nth_error_Some. rewrite Hnth. discriminate. }
  apply Nat.leb_gt in Hlt. rewrite Hlt. reflexivity.
Qed.

Lemma convert_consumed_nothing (t : ds_type_t) (value : string) :
  consumed h t value = 0 ->
  exists format, convert h t value = inl (ev_log LOG_ERR format [arg_s value]).
Proof.
  unfold consumed, convert. destruct t.
  - destruct (strtoll h value) as [c n]. simpl. intros ->. simpl. eauto.
  - destruct (strtod h value) as [g n]. simpl. intros ->. simpl. eauto.
Qed.

End SubmitFacts.

(** ** The datagram strategy *)

Section DgramFacts.
Context {gauge_t : Type} (h : host gauge_t).

Ltac split_ifs :=
  repeat match goal with
         | |- context [if ?b then _ else _] => destruct b eqn:?
         | |- context [let (_, _) := ?p in _] => destruct p eqn:?
         end.

(** The exchange itself never unlinks anything. *)
Lemma dgram_exchange_no_unlink (item : list_item_t) (path : string)
    (io : io_env) :
  filter is_unlink (fst (fst (dgram_exchange (gauge_t := gauge_t) item path io)))
  = [].
Proof. unfold dgram_exchange. split_ifs; reflexivity. Qed.

(** The exchange is left with [status = 0] or with a failure status. *)
Lemma dgram_exchange_status (item : list_item_t) (path : string)
    (io : io_env) :
  let status := snd (fst (dgram_exchange (gauge_t := gauge_t) item path io)) in
  status = 0%Z \/ (status =? 0)%Z = false.
Proof.
  unfold dgram_exchange.
  destruct (negb (io_bind io =? 0)%Z) eqn:Hbind;
    [right; now apply negb_true_iff|].
  destruct (negb (io_chmod io =? 0)%Z) eqn:Hchmod;
    [right; now apply negb_true_iff|].
  destruct (negb (io_connect io =? 0)%Z) eqn:Hconnect;
    [right; now apply negb_true_iff|].
  destruct (io_send io <? 0)%Z eqn:Hsend.
  { right. simpl. apply Z.eqb_neq. apply Z.ltb_lt in Hsend. lia. }
  destruct (recv_once io) as [status temp].
  destruct (status <? 0)%Z eqn:Hrecv; simpl; [right|now left].
  apply Z.eqb_neq. apply Z.ltb_lt in Hrecv. lia.
Qed.

(** Whatever the datagram strategy received, a successful call hands back a
    one-byte buffer that holds only the terminator. *)
Lemma dgram_success_buffer (lsp : option string) (item : list_item_t)
    (io : io_env) :
  gd_status (snd (powerdns_get_data_dgram h lsp item io)) = 0%Z ->
  gd_buffer (snd (powerdns_get_data_dgram h lsp item io)) = Some [zero]
  /\ gd_buffer_size (snd (powerdns_get_data_dgram h lsp item io)) = 1.
Proof.
  unfold powerdns_get_data_dgram.
  destruct (io_socket io <? 0)%Z; [discriminate|].
  destruct (io_unlink io) as [ust uerrno].
  destruct (negb (ust =? 0)%Z && negb (uerrno =? ENOENT)%Z); [discriminate|].
  pose proof (dgram_exchange_status item (dgram_sun_path h lsp) io) as Hst.
  destruct (dgram_exchange item (dgram_sun_path h lsp) io)
    as [[tr status] temp].
  simpl in Hst. destruct Hst as [-> | Hst].
  - simpl. destruct (io_alloc io 0); simpl; [auto|discriminate].
  - rewrite Hst. simpl. discriminate.
Qed.

Lemma filter_is_unlink_app (a b : list (event gauge_t)) :
  filter is_unlink (a ++ b) = filter is_unlink a ++ filter is_unlink b.
Proof. apply filter_app. Qed.

(** After a successful [socket], the path is unlinked once before [bind];
    unless that attempt is refused it is unlinked once more, right after the
    socket is closed, however the exchange went. *)
Lemma dgram_trace_shape (lsp : option string) (item : list_item_t)
    (io : io_env) :
  (0 <= io_socket io)%Z ->
  let tr := fst (powerdns_get_data_dgram h lsp item io) in
  let path := dgram_sun_path h lsp in
  if unlink_refused io
  then tr = [ev_socket (socktype item); ev_unlink path; FUNC_ERROR "unlink";
             ev_close]
  else exists before after,
      tr = ev_socket (socktype item) :: ev_unlink path :: before
           ++ ev_close :: ev_unlink path :: after
      /\ filter is_unlink before = []
      /\ filter is_unlink after = [].
Proof.
  intros Hsd. unfold powerdns_get_data_dgram, unlink_refused.
  apply Z.ltb_ge in Hsd. rewrite Hsd.
  destruct (io_unlink io) as [ust uerrno]. simpl fst. simpl snd.
  destruct (negb (ust =? 0)%Z && negb (uerrno =? ENOENT)%Z); [reflexivity|].
  pose proof (dgram_exchange_no_unlink item (dgram_sun_path h lsp) io) as Hex.
  destruct (dgram_exchange item (dgram_sun_path h lsp) io)
    as [[ex status] temp].
  simpl in Hex.
  destruct (negb (status =? 0)%Z).
  - exists ex, []. simpl. auto.
  - destruct (negb (io_alloc io 0)).
    + exists ex, [FUNC_ERROR "malloc"]. simpl.
      rewrite <- app_assoc. simpl. auto.
    + exists ex, []. simpl. auto.
Qed.

End DgramFacts.

(** ** The stream strategy *)

Section StreamFacts.
Context {gauge_t : Type}.

Lemma holds_kept (buffer : option (list ascii)) (content : list ascii) :
  holds buffer content ->
  firstn (List.length content) (match buffer with Some b => b | None => [] end)
  = content.
Proof.
  destruct buffer as [b|]; simpl; intros ->.
  - rewrite firstn_app, firstn_all, Nat.sub_diag. simpl. apply app_nil_r.
  - reflexivity.
Qed.

(** A loop that is left with [status = 0] has appended, in their order,
    the chunks delivered to it. *)
Lemma stream_recv_loop_success (alloc : nat -> bool)
    (script : list recv_result) :
  forall (k : nat) (buffer : option (list ascii)) (content : list ascii)
         (tr : list (event gauge_t)) (b : option (list ascii)) (n : nat),
    holds buffer content ->
    stream_recv_loop alloc script k buffer (List.length content)
    = (tr, 0%Z, b, n) ->
    n = List.length (content ++ List.concat (delivered script))
    /\ b = match delivered script with
           | [] => buffer
           | _ => Some (content ++ List.concat (delivered script) ++ [zero])
           end.
Proof.
  induction script as [|r script IH]; intros k buffer content tr b n Hholds.
  - simpl. intros [= <- <- <-]. now rewrite app_nil_r.
  - destruct r as [|temp]; [simpl; discriminate|].
    destruct temp as [|c temp].
    + simpl. intros [= <- <- <-]. now rewrite app_nil_r.
    + cbn [stream_recv_loop delivered]. rewrite (holds_kept _ _ Hholds).
      change (List.length (c :: temp) =? 0)%nat with false. cbv iota.
      destruct (alloc k); simpl negb; cbv iota; [|discriminate].
      rewrite <- length_app.
      destruct (stream_recv_loop alloc script (S k)
                  (Some (content ++ (c :: temp) ++ [zero]))
                  (List.length (content ++ c :: temp)))
        as [[[tr' st'] b'] n'] eqn:Hloop.
      intros [= <- -> <- <-].
      assert (Hholds' : holds (Some (content ++ (c :: temp) ++ [zero]))
                          (content ++ c :: temp)).
      { simpl. now rewrite <- app_assoc. }
      destruct (IH _ _ _ _ _ _ Hholds' Hloop) as [Hn Hb].
      split.
      * rewrite Hn. cbn [List.concat]. now rewrite <- !app_assoc.
      * rewrite Hb. destruct (delivered script) eqn:Hd.
        -- cbn [List.concat]. now rewrite app_nil_r.
        -- cbn [List.concat]. now rewrite <- !app_assoc.
Qed.

(** A successful call of the stream strategy hands back the chunks it
    received, concatenated in their order and terminated, with their total
    length; when it received none it hands back NULL and 0. *)
Lemma stream_success_buffer (item : list_item_t) (io : io_env) :
  let r := snd (powerdns_get_data_stream (gauge_t := gauge_t) item io) in
  gd_status r = 0%Z ->
  gd_buffer_size r = List.length (List.concat (delivered (io_recv io)))
  /\ gd_buffer r = match delivered (io_recv io) with
                   | [] => None
                   | _ => Some (List.concat (delivered (io_recv io)) ++ [zero])
                   end.
Proof.
  unfold powerdns_get_data_stream.
  destruct (io_socket io <? 0)%Z; [discriminate|].
  destruct (negb (io_connect io =? 0)%Z); [discriminate|].
  destruct (io_send io <? 0)%Z; [discriminate|].
  destruct (stream_recv_loop (io_alloc io) (io_recv io) 0 None 0)
    as [[[tr status] buffer] buffer_size] eqn:Hloop.
  destruct (status <? 0)%Z eqn:Hneg; simpl.
  - intros ->. discriminate.
  - intros ->.
    apply (stream_recv_loop_success _ _ 0 None [] _ _ _ eq_refl) in Hloop.
    exact Hloop.
Qed.

End StreamFacts.

(** ** The collection functions *)

Section ReadFacts.
Context {gauge_t : Type} (h : host gauge_t).

(** Once the reply is there, [powerdns_read_server] submits the pairs of the
    Comma-Pair Decoder in their order and returns 0. *)
Lemma powerdns_read_server_decodes (lsp : option string) (item : list_item_t)
    (io : io_env) (tr : list (event gauge_t)) (r : get_data_result)
    (buffer : list ascii) :
  powerdns_get_data h lsp item io = (tr, r) ->
  gd_status r = 0%Z ->
  gd_buffer r = Some buffer ->
  powerdns_read_server h lsp item io
  = (tr ++ each_pair (submit h (instance item))
             (comma_pairs (tokens "," (of_block buffer))),
     Returns 0%Z).
Proof.
  intros Hget Hst Hbuf. unfold powerdns_read_server.
  rewrite Hget, Hst, Hbuf. simpl negb. cbv iota.
  now rewrite server_decode_tokens.
Qed.

(** Once the reply is there and the command is copied,
    [powerdns_read_recursor] submits the pairs of the Positional Decoder in
    their order and returns 0. *)
Lemma powerdns_read_recursor_decodes (lsp : option string)
    (item : list_item_t) (io : io_env) (tr : list (event gauge_t))
    (r : get_data_result) (buffer : list ascii) :
  powerdns_get_data h lsp item io = (tr, r) ->
  gd_status r = 0%Z ->
  gd_buffer r = Some buffer ->
  io_strdup io = true ->
  powerdns_read_recursor h lsp item io
  = (tr ++ each_pair (submit h (instance item))
             (positional_pairs (command item) (of_block buffer)),
     Returns 0%Z).
Proof.
  intros Hget Hst Hbuf Hdup. unfold powerdns_read_recursor.
  rewrite Hget, Hst, Hbuf, Hdup. simpl negb. cbv iota.
  now rewrite recursor_decode_tokens.
Qed.

(** The read loop, while no collection function runs into undefined
    behaviour, polls every entry from [e] on, whatever the entries return. *)
Lemma read_from_polls_all (lsp : option string) (io : nat -> io_env) :
  forall (e : list list_item_t) (k : nat),
    (forall n item,
        nth_error e n = Some item ->
        snd (call_func h lsp item (io (k + n))) <> Undefined) ->
    read_from h lsp io k e
    = (List.concat (poll_each h lsp io k e), Returns 0%Z).
Proof.
  induction e as [|item next IH]; intros k Hdef; [reflexivity|].
  simpl. pose proof (Hdef 0 item eq_refl) as Hitem.
  rewrite Nat.add_0_r in Hitem.
  destruct (call_func h lsp item (io k)) as [tr [status|]];
    [|now elim Hitem].
  rewrite IH; [reflexivity|].
  intros n item' Hnth. specialize (Hdef (S n) item' Hnth).
  now rewrite Nat.add_succ_r in Hdef.
Qed.

End ReadFacts.

(** * The claims of the design document *)

Import Demo.

(** ** Datagram strategy *)

(** C1 (the code departs from it).  The claim: a successful datagram
    exchange whose [recv] delivered N bytes hands back those N bytes,
    NUL-terminated.  The code sets [status = 0] after the [recv] and then
    sizes and fills the buffer from [status]: with the five bytes [1 2 3]
    received, the buffer handed back holds the terminator alone and its size
    is 1. *)
Theorem dgram_reply_is_discarded :
  snd (powerdns_get_data_dgram demo_host None recursor_item
         (io_ok [bytes "1 2 3"]))
  = {| gd_status := 0; gd_buffer := Some [zero]; gd_buffer_size := 1 |}
  /\ Some [zero] <> Some (bytes "1 2 3" ++ [zero]).
Proof. split; [reflexivity|discriminate]. Qed.

(** C5, as stated, fails: a datagram exchange in which every call succeeds
    unlinks the local bind path twice, not once. *)
Lemma dgram_unlinks_twice :
  (0 <= io_socket (io_ok [bytes "1 2 3"]))%Z
  /\ unlink_attempts
       (fst (powerdns_get_data_dgram demo_host None recursor_item
               (io_ok [bytes "1 2 3"]))) = 2
  /\ unlink_attempts
       (fst (powerdns_get_data_dgram demo_host None recursor_item
               (io_ok [bytes "1 2 3"]))) <> 1.
Proof. repeat split; [discriminate|discriminate]. Qed.

(** C5, amended.  Once its socket exists, the datagram strategy unlinks the
    local bind path before [bind].  When that attempt is refused (it fails
    for a reason other than [ENOENT]) it is the only one: the strategy logs
    the error, closes the socket and returns -1 with no buffer.  Otherwise
    the strategy goes through the exchange, closes the socket and unlinks
    the same path exactly once more, whichever of [bind], [chmod],
    [connect], [send], [recv] and [malloc] fails or succeeds: two attempts
    in all, both on the local bind path, and none during the exchange or
    after the second. *)
Theorem dgram_unlink_attempts {gauge_t : Type} (h : host gauge_t)
    (lsp : option string) (item : list_item_t) (io : io_env) :
  (0 <= io_socket io)%Z ->
  let run := powerdns_get_data_dgram h lsp item io in
  let path := dgram_sun_path h lsp in
  let exchange := fst (fst (dgram_exchange (gauge_t := gauge_t) item path io)) in
  unlink_attempts (fst run) = (if unlink_refused io then 1 else 2)
  /\ (if unlink_refused io
      then fst run = [ev_socket (socktype item); ev_unlink path;
                      FUNC_ERROR "unlink"; ev_close]
           /\ snd run = gd_failed (-1)
      else exists after,
          fst run = ev_socket (socktype item) :: ev_unlink path :: exchange
                    ++ ev_close :: ev_unlink path :: after
          /\ unlink_attempts exchange = 0
          /\ (after = [] \/ after = [FUNC_ERROR "malloc"])).
Proof.
  intros Hsd run path exchange. subst run path exchange.
  unfold powerdns_get_data_dgram, unlink_refused.
  apply Z.ltb_ge in Hsd. rewrite Hsd.
  destruct (io_unlink io) as [ust uerrno]. cbn [fst snd].
  destruct (negb (ust =? 0)%Z && negb (uerrno =? ENOENT)%Z);
    [repeat split|].
  pose proof (dgram_exchange_no_unlink (gauge_t := gauge_t) item
                (dgram_sun_path h lsp) io) as Hex.
  destruct (dgram_exchange item (dgram_sun_path h lsp) io)
    as [[ex status] temp].
  cbn [fst snd] in *.
  assert (Hcount : forall after,
             filter is_unlink after = [] ->
             unlink_attempts
               (ev_socket (socktype item) :: ev_unlink (dgram_sun_path h lsp)
                :: ex ++ ev_close :: ev_unlink (dgram_sun_path h lsp) :: after)
             = 2).
  { intros after Hafter. unfold unlink_attempts. simpl.
    rewrite filter_is_unlink_app, Hex. simpl. now rewrite Hafter. }
  assert (Hzero : unlink_attempts ex = 0)
    by (unfold unlink_attempts; now rewrite Hex).
  destruct (negb (status =? 0)%Z); cbn [fst].
  - split; [now apply Hcount|]. exists []. auto.
  - destruct (negb (io_alloc io 0)); cbn [fst].
    + cbn [app]. rewrite <- app_assoc. cbn [app].
      split; [now apply Hcount|]. exists [FUNC_ERROR "malloc"]. auto.
    + split; [now apply Hcount|]. exists []. auto.
Qed.

Lemma dgram_unlink_attempts_witness :
  let io := io_ok [bytes "1 2 3"] in
  let run := powerdns_get_data_dgram demo_host None recursor_item io in
  let path := dgram_sun_path demo_host None in
  let exchange :=
    fst (fst (dgram_exchange (gauge_t := Z) recursor_item path io)) in
  unlink_attempts (fst run) = (if unlink_refused io then 1 else 2)
  /\ (if unlink_refused io
      then fst run = [ev_socket (socktype recursor_item); ev_unlink path;
                      FUNC_ERROR "unlink"; ev_close]
           /\ snd run = gd_failed (-1)
      else exists after,
          fst run = ev_socket (socktype recursor_item) :: ev_unlink path
                    :: exchange ++ ev_close :: ev_unlink path :: after
          /\ unlink_attempts exchange = 0
          /\ (after = [] \/ after = [FUNC_ERROR "malloc"])).
Proof.
  apply (dgram_unlink_attempts demo_host None recursor_item
           (io_ok [bytes "1 2 3"])).
  vm_compute. discriminate.
Defined.

(** A refused first [unlink]: one attempt, and the call fails. *)
Example dgram_unlink_refused :
  let io := {| io_socket := 3; io_unlink := (-1, 13)%Z; io_bind := 0;
               io_chmod := 0; io_connect := 0; io_send := 6;
               io_recv := [recv_data (bytes "1 2 3")];
               io_alloc := always; io_strdup := true |} in
  powerdns_get_data_dgram demo_host None recursor_item io
  = ([ev_socket SOCK_DGRAM; ev_unlink "/var/run/collectd-powerdns";
      FUNC_ERROR "unlink"; ev_close],
     gd_failed (-1)).
Proof. reflexivity. Qed.

(** ** Stream strategy *)

(** Three chunks of 10, 4090 and 1 bytes come back as one buffer of 4101
    bytes and a terminator, in the order of arrival. *)
Example stream_three_chunks :
  let chunks := [repeat "a"%char 10; repeat "b"%char 4090; ["c"%char]] in
  snd (powerdns_get_data_stream (gauge_t := Z) server_item (io_ok chunks))
  = {| gd_status := 0;
       gd_buffer := Some (List.concat chunks ++ [zero]);
       gd_buffer_size := 4101 |}.
Proof. vm_compute. reflexivity. Qed.

(** C6 (the code departs from it).  The claim: every successful call of the
    stream strategy hands back a NUL-terminated buffer, and an empty reply is
    a success.  When the peer closes without sending anything the call does
    return 0, but the buffer handed back is NULL, not an empty terminated
    buffer; [powerdns_read_server] then passes NULL to [strtok_r] with a NULL
    [saveptr]. *)
Theorem stream_empty_reply_is_null :
  snd (powerdns_get_data_stream (gauge_t := Z) server_item (io_ok []))
  = {| gd_status := 0; gd_buffer := None; gd_buffer_size := 0 |}
  /\ snd (powerdns_read_server demo_host None server_item (io_ok []))
     = Undefined.
Proof. split; reflexivity. Qed.

(** ** Configuration *)

(** C2 (the code departs from it).  The claim: a top-level [LocalSocket]
    option with value [s] makes [s] the local bind path.  The code copies
    [option->key], so whatever the value, the path becomes the option's
    name. *)
Theorem local_socket_takes_the_key {gauge_t : Type} (h : host gauge_t)
    (s : string) :
  local_sockpath
    (configured h always
       (oconfig_item "Plugin" [OCONFIG_TYPE_STRING "powerdns"]
          [oconfig_item "LocalSocket" [OCONFIG_TYPE_STRING s] []]))
  = Some "LocalSocket"
  /\ local_sockpath (configured demo_host always local_socket_block)
     <> Some "/tmp/pdns-local"
  /\ dgram_sun_path demo_host
       (local_sockpath (configured demo_host always local_socket_block))
     = "LocalSocket".
Proof. repeat split. discriminate. Qed.

(** Targets enter the list in the order of their blocks. *)
Example configured_order :
  option_map (map instance)
    (the_list
       (configured demo_host always
          (oconfig_item "Plugin" [OCONFIG_TYPE_STRING "powerdns"]
             [oconfig_item "Server" [OCONFIG_TYPE_STRING "auth"] [];
              oconfig_item "Recursor" [OCONFIG_TYPE_STRING "rec"] [];
              oconfig_item "Server" [OCONFIG_TYPE_STRING "auth2"]
                [oconfig_item "Socket" [OCONFIG_TYPE_STRING "/tmp/pdns2"]
                   []]])))
  = Some ["auth"; "rec"; "auth2"].
Proof. reflexivity. Qed.

(** ** submit *)

(** C3.  A raw name that matches no entry of the lookup table is dropped:
    [submit] returns after at most a debug message, and calls neither
    [plugin_get_ds] nor [plugin_dispatch_values]. *)
Theorem submit_unresolved_is_dropped {gauge_t : Type} (h : host gauge_t)
    (plugin_instance pdns_type value : string) :
  resolve pdns_type = None ->
  (submit h plugin_instance pdns_type value = []
   \/ submit h plugin_instance pdns_type value
      = [ev_log LOG_DEBUG
           "powerdns plugin: submit: Not found in lookup table: %s = %s;"
           [arg_s pdns_type; arg_s value]])
  /\ existsb is_get_ds (submit h plugin_instance pdns_type value) = false
  /\ existsb is_dispatch (submit h plugin_instance pdns_type value) = false.
Proof.
  intros Hnone. rewrite (submit_unresolved h _ _ _ Hnone).
  destruct (past_lookup_table h); simpl; auto.
Qed.

Lemma submit_unresolved_is_dropped_witness :
  (submit demo_host "rec" "unknown-stat-xyz" "5" = []
   \/ submit demo_host "rec" "unknown-stat-xyz" "5"
      = [ev_log LOG_DEBUG
           "powerdns plugin: submit: Not found in lookup table: %s = %s;"
           [arg_s "unknown-stat-xyz"; arg_s "5"]])
  /\ existsb is_get_ds (submit demo_host "rec" "unknown-stat-xyz" "5") = false
  /\ existsb is_dispatch (submit demo_host "rec" "unknown-stat-xyz" "5")
     = false.
Proof.
  apply (submit_unresolved_is_dropped demo_host "rec" "unknown-stat-xyz" "5").
  reflexivity.
Defined.

(** C4 (the code departs from it).  The claim: the read of
    [lookup_table[i].type] that follows the scan uses an index below
    [lookup_table_length].  For a name without entry the scan ends with
    [i = lookup_table_length], and the read comes before the test of [i]
    against the length: it is one entry past the table, and what [submit]
    does next depends on the word found there. *)
Theorem submit_reads_past_lookup_table :
  resolve "unknown-stat-xyz" = None
  /\ submit_index "unknown-stat-xyz" = lookup_table_length
  /\ nth_error lookup_table (submit_index "unknown-stat-xyz") = None
  /\ submit (host_with None) "rec" "unknown-stat-xyz" "5" = []
  /\ submit (host_with (Some "x")) "rec" "unknown-stat-xyz" "5"
     = [ev_log LOG_DEBUG
          "powerdns plugin: submit: Not found in lookup table: %s = %s;"
          [arg_s "unknown-stat-xyz"; arg_s "5"]].
Proof. repeat split. Qed.

(** C9.  When the name resolves, the schema is found with one data source,
    and the conversion that data source requires consumes no character of
    the value, [submit] logs an error and returns without calling
    [plugin_dispatch_values]; in either decoding loop the pairs before and
    after that one are submitted as they would be without it. *)
Theorem submit_unparsable_value_is_dropped {gauge_t : Type} (h : host gauge_t)
    (plugin_instance pdns_type value : string) (e : statname_lookup_t)
    (d : data_set_t) (d0 : data_source_t) :
  resolve pdns_type = Some e ->
  plugin_get_ds h (type e) = Some d ->
  ds d = [d0] ->
  consumed h (ds_type d0) value = 0 ->
  (exists format,
      submit h plugin_instance pdns_type value
      = [ev_plugin_get_ds (type e); ev_log LOG_ERR format [arg_s value]])
  /\ existsb is_dispatch (submit h plugin_instance pdns_type value) = false
  /\ (forall buffer before after,
         server_pairs (Some buffer)
         = Returns (before ++ (pdns_type, value) :: after) ->
         server_decode (submit h plugin_instance) (Some buffer)
         = Returns (each_pair (submit h plugin_instance) before
                    ++ submit h plugin_instance pdns_type value
                    ++ each_pair (submit h plugin_instance) after))
  /\ (forall cmd buffer before after,
         recursor_pairs cmd (Some buffer)
         = Returns (before ++ (pdns_type, value) :: after) ->
         recursor_decode (submit h plugin_instance) cmd (Some buffer)
         = Returns (each_pair (submit h plugin_instance) before
                    ++ submit h plugin_instance pdns_type value
                    ++ each_pair (submit h plugin_instance) after)).
Proof.
  intros Hres Hds Hone Hzero.
  destruct (convert_consumed_nothing h _ _ Hzero) as [format Hconv].
  assert (Hsubmit : submit h plugin_instance pdns_type value
                    = [ev_plugin_get_ds (type e);
                       ev_log LOG_ERR format [arg_s value]]).
  { rewrite (submit_resolved h _ _ _ _ Hres), Hds, Hone, Hconv.
    reflexivity. }
  split; [now exists format|].
  split; [now rewrite Hsubmit|].
  split.
  - intros buffer before after Hpairs.
    rewrite server_pairs_tokens in Hpairs. injection Hpairs as Hpairs.
    now rewrite server_decode_tokens, Hpairs, each_pair_app.
  - intros cmd buffer before after Hpairs.
    rewrite recursor_pairs_tokens in Hpairs. injection Hpairs as Hpairs.
    now rewrite recursor_decode_tokens, Hpairs, each_pair_app.
Qed.

Lemma submit_unparsable_value_is_dropped_witness :
  (exists format,
      submit demo_host "auth" "latency" "N/A"
      = [ev_plugin_get_ds "latency"; ev_log LOG_ERR format [arg_s "N/A"]])
  /\ existsb is_dispatch (submit demo_host "auth" "latency" "N/A") = false
  /\ (forall buffer before after,
         server_pairs (Some buffer)
         = Returns (before ++ ("latency", "N/A") :: after) ->
         server_decode (submit demo_host "auth") (Some buffer)
         = Returns (each_pair (submit demo_host "auth") before
                    ++ submit demo_host "auth" "latency" "N/A"
                    ++ each_pair (submit demo_host "auth") after))
  /\ (forall cmd buffer before after,
         recursor_pairs cmd (Some buffer)
         = Returns (before ++ ("latency", "N/A") :: after) ->
         recursor_decode (submit demo_host "auth") cmd (Some buffer)
         = Returns (each_pair (submit demo_host "auth") before
                    ++ submit demo_host "auth" "latency" "N/A"
                    ++ each_pair (submit demo_host "auth") after)).
Proof.
  apply (submit_unparsable_value_is_dropped demo_host "auth" "latency" "N/A"
           (entry "latency" "latency" None)
           {| set_type := "latency";
              ds := [{| ds_name := "value"; ds_type := DS_TYPE_GAUGE |}] |}
           {| ds_name := "value"; ds_type := DS_TYPE_GAUGE |});
    reflexivity.
Defined.

(** A reply with an unparsable value in its first pair: the second pair is
    still dispatched. *)
Example read_server_goes_on_after_bad_value :
  filter is_dispatch
    (fst (powerdns_read_server demo_host None server_item
            (io_ok [bytes "latency=N/A,udp-queries=5"])))
  = [ev_plugin_dispatch_values "dns_question"
       {| vl_values := [counter 5%Z]; vl_time := 1200000000;
          vl_host := "localhost"; vl_plugin := "powerdns";
          vl_plugin_instance := "auth"; vl_type_instance := "udp" |}].
Proof. reflexivity. Qed.

(** ** Decoders *)

(** C7.  In a comma-pair reply, the first token without [=] ends the
    decoding and is no error: the pairs handed to [submit] are those of the
    tokens before it, in their order, nothing that follows it is decoded,
    and [powerdns_read_server] returns 0. *)
Theorem read_server_stops_at_token_without_equals {gauge_t : Type}
    (h : host gauge_t) (lsp : option string) (item : list_item_t)
    (io : io_env) (tr : list (event gauge_t)) (r : get_data_result)
    (buffer : list ascii) (toks1 : list string) (tok : string)
    (toks2 : list string) :
  powerdns_get_data h lsp item io = (tr, r) ->
  gd_status r = 0%Z ->
  gd_buffer r = Some buffer ->
  tokens "," (of_block buffer) = toks1 ++ tok :: toks2 ->
  forallb has_equals toks1 = true ->
  has_equals tok = false ->
  server_pairs (Some buffer) = Returns (flat_map pair_of_token toks1)
  /\ powerdns_read_server h lsp item io
     = (tr ++ each_pair (submit h (instance item))
                (flat_map pair_of_token toks1),
        Returns 0%Z).
Proof.
  intros Hget Hst Hbuf Htoks Hall Htok.
  rewrite server_pairs_tokens,
    (powerdns_read_server_decodes h _ _ _ _ _ _ Hget Hst Hbuf), Htoks,
    (comma_pairs_stop _ _ _ Hall Htok).
  split; reflexivity.
Qed.

Lemma read_server_stops_at_token_without_equals_witness :
  server_pairs (Some (block "a=1,garbage,b=2")) = Returns [("a", "1")]
  /\ powerdns_read_server demo_host None server_item
       (io_ok [bytes "a=1,garbage,b=2"])
     = (fst (powerdns_get_data demo_host None server_item
               (io_ok [bytes "a=1,garbage,b=2"]))
        ++ each_pair (submit demo_host "auth") [("a", "1")],
        Returns 0%Z).
Proof.
  apply (read_server_stops_at_token_without_equals demo_host None server_item
           (io_ok [bytes "a=1,garbage,b=2"])
           (fst (powerdns_get_data demo_host None server_item
                   (io_ok [bytes "a=1,garbage,b=2"])))
           (snd (powerdns_get_data demo_host None server_item
                   (io_ok [bytes "a=1,garbage,b=2"])))
           (block "a=1,garbage,b=2") ["a=1"] "garbage" ["b=2"]);
    reflexivity.
Defined.

(** C8.  The positional loop pairs the N-th value token of the reply with
    the N-th token of the command after its verb, in that order, up to the
    end of the shorter of the two sequences; the pairs are handed to the
    action in that order, and [powerdns_read_recursor] returns 0. *)
Theorem read_recursor_pairs_by_position {gauge_t : Type} (h : host gauge_t)
    (lsp : option string) (item : list_item_t) (io : io_env)
    (tr : list (event gauge_t)) (r : get_data_result) (buffer : list ascii) :
  powerdns_get_data h lsp item io = (tr, r) ->
  gd_status r = 0%Z ->
  gd_buffer r = Some buffer ->
  io_strdup io = true ->
  let names := tl (tokens KEY_DELIM (command item)) in
  let vals := tokens VALUE_DELIM (of_block buffer) in
  recursor_pairs (command item) (Some buffer) = Returns (combine names vals)
  /\ List.length (combine names vals)
     = Nat.min (List.length names) (List.length vals)
  /\ (forall n name value,
         nth_error names n = Some name ->
         nth_error vals n = Some value ->
         nth_error (combine names vals) n = Some (name, value))
  /\ powerdns_read_recursor h lsp item io
     = (tr ++ each_pair (submit h (instance item)) (combine names vals),
        Returns 0%Z)
  /\ recursor_pairs "get foo bar baz" (Some (block "1 2 3"))
     = Returns [("foo", "1"); ("bar", "2"); ("baz", "3")].
Proof.
  intros Hget Hst Hbuf Hdup names vals.
  split; [apply recursor_pairs_tokens|].
  split; [apply length_combine|].
  split.
  - intros n. generalize names vals. clear.
    induction n as [|n IH]; intros [|a names] [|b vals] name value;
      simpl; try discriminate.
    + now intros [= ->] [= ->].
    + apply IH.
  - split; [|reflexivity].
    apply (powerdns_read_recursor_decodes h _ _ _ _ _ _ Hget Hst Hbuf Hdup).
Qed.

Lemma read_recursor_pairs_by_position_witness :
  let names := ["foo"; "bar"; "baz"] in
  let vals := ["1"; "2"] in
  recursor_pairs "get foo bar baz" (Some (block "1 2"))
  = Returns [("foo", "1"); ("bar", "2")]
  /\ List.length (combine names vals)
     = Nat.min (List.length names) (List.length vals)
  /\ (forall n name value,
         nth_error names n = Some name ->
         nth_error vals n = Some value ->
         nth_error (combine names vals) n = Some (name, value))
  /\ powerdns_read_recursor demo_host None positional_item
       (io_ok [bytes "1 2"])
     = (fst (powerdns_get_data demo_host None positional_item
               (io_ok [bytes "1 2"]))
        ++ each_pair (submit demo_host "rec") [("foo", "1"); ("bar", "2")],
        Returns 0%Z)
  /\ recursor_pairs "get foo bar baz" (Some (block "1 2 3"))
     = Returns [("foo", "1"); ("bar", "2"); ("baz", "3")].
Proof.
  apply (read_recursor_pairs_by_position demo_host None positional_item
           (io_ok [bytes "1 2"])
           (fst (powerdns_get_data demo_host None positional_item
                   (io_ok [bytes "1 2"])))
           (snd (powerdns_get_data demo_host None positional_item
                   (io_ok [bytes "1 2"])))
           (block "1 2"));
    reflexivity.
Defined.

(** ** The read callback *)

(** What does hold of the sweep.  In a cycle in which every collection
    function returns, whether with success or with failure,
    [powerdns_read] polls every entry of the list, from its head on and in
    the order of the list (the order in which [llist_append] entered them):
    its events are those of the entries, one entry after the other, and it
    returns 0. *)
Lemma powerdns_read_polls_every_target {gauge_t : Type} (h : host gauge_t)
    (st : plugin_state) (io : nat -> io_env) :
  (forall n item,
      nth_error (llist_head (the_list st)) n = Some item ->
      snd (call_func h (local_sockpath st) item (io n)) <> Undefined) ->
  powerdns_read h st io
  = (List.concat
       (poll_each h (local_sockpath st) io 0 (llist_head (the_list st))),
     Returns 0%Z)
  /\ List.length
       (poll_each h (local_sockpath st) io 0 (llist_head (the_list st)))
     = List.length (llist_head (the_list st)).
Proof.
  intros Hdef. split.
  - unfold powerdns_read. apply read_from_polls_all. exact Hdef.
  - clear Hdef. generalize 0.
    induction (llist_head (the_list st)) as [|item next IH]; intros k; simpl;
      [reflexivity|].
    now rewrite IH.
Qed.

Lemma powerdns_read_polls_every_target_witness :
  let st := {| the_list := Some [server_item; recursor_item];
               local_sockpath := None |} in
  let io := fun n => match n with
                     | 0 => io_no_socket
                     | _ => io_ok [bytes "7 8"]
                     end in
  snd (call_func demo_host None server_item io_no_socket) = Returns (-1)%Z
  /\ powerdns_read demo_host st io
     = (fst (call_func demo_host None server_item io_no_socket)
        ++ fst (call_func demo_host None recursor_item (io_ok [bytes "7 8"])),
        Returns 0%Z).
Proof.
  split; [reflexivity|].
  refine (eq_trans
            (proj1 (powerdns_read_polls_every_target demo_host
                      {| the_list := Some [server_item; recursor_item];
                         local_sockpath := None |}
                      (fun n => match n with
                                | 0 => io_no_socket
                                | _ => io_ok [bytes "7 8"]
                                end) _)) _).
  - intros [|[|[|n]]] item; simpl; try discriminate;
      intros [= <-]; vm_compute; discriminate.
  - reflexivity.
Defined.

(** The sweep ends at the first entry whose collection function does not
    return: the entries behind it are not polled. *)
Lemma read_from_stops {gauge_t : Type} (h : host gauge_t)
    (lsp : option string) (io : nat -> io_env) (item : list_item_t)
    (behind : list list_item_t) :
  forall (before : list list_item_t) (k : nat),
    (forall n target,
        nth_error before n = Some target ->
        snd (call_func h lsp target (io (k + n))) <> Undefined) ->
    snd (call_func h lsp item (io (k + List.length before))) = Undefined ->
    read_from h lsp io k (before ++ item :: behind)
    = (List.concat (poll_each h lsp io k before)
       ++ fst (call_func h lsp item (io (k + List.length before))),
       Undefined).
Proof.
  induction before as [|target before IH]; intros k Hdef Hundef.
  - cbn [app read_from poll_each List.concat List.length] in *.
    rewrite Nat.add_0_r in *.
    destruct (call_func h lsp item (io k)) as [tr r]. cbn [fst snd] in *.
    subst r. reflexivity.
  - cbn [app read_from poll_each List.concat].
    pose proof (Hdef 0 target eq_refl) as Htarget.
    rewrite Nat.add_0_r in Htarget.
    destruct (call_func h lsp target (io k)) as [tr [status|]];
      [|now elim Htarget].
    rewrite (IH (S k)).
    + cbn [fst List.length]. now rewrite app_assoc, Nat.add_succ_r.
    + intros n target' Hnth. specialize (Hdef (S n) target' Hnth).
      now rewrite Nat.add_succ_r in Hdef.
    + cbn [List.length] in Hundef. now rewrite Nat.add_succ_r in Hundef.
Qed.

(** C10 (the code departs from it).  The claim: every target of the list is
    polled, and the failure of one does not keep the later ones from being
    polled.  A server target whose peer closes the connection without
    sending a byte gets a NULL buffer from the stream strategy with status
    0, and [powerdns_read_server] hands it to [strtok_r] with a NULL
    [saveptr]: the collection function does not return, the sweep ends
    there, and the recursor target behind it, which would have opened its
    socket, is never polled. *)
Theorem powerdns_read_stops_at_empty_stream_reply :
  let st := {| the_list := Some [server_item; recursor_item];
               local_sockpath := None |} in
  let io := fun n => match n with
                     | 0 => io_ok []
                     | _ => io_ok [bytes "7 8"]
                     end in
  snd (call_func demo_host None server_item (io_ok [])) = Undefined
  /\ powerdns_read demo_host st io
     = (fst (call_func demo_host None server_item (io_ok [])), Undefined)
  /\ count is_socket (fst (powerdns_read demo_host st io)) = 1
  /\ count is_socket
       (fst (call_func demo_host None recursor_item (io_ok [bytes "7 8"])))
     = 1.
Proof. repeat split. Qed.

(** * Further properties *)

(** ** Tokens, again *)

Section MoreTokenFacts.
Variable delim : string.

Lemma fields_not_nil (s : string) : fields delim s <> [].
Proof.
  induction s as [|c s IH]; simpl; [discriminate|].
  destruct (is_delim delim c); [discriminate|].
  destruct (fields delim s); discriminate.
Qed.

(** Fields on either side of a delimiter do not mix. *)
Lemma fields_app_delim (a : string) (d : ascii) (b : string) :
  is_delim delim d = true ->
  fields delim (a ++ String d b) = fields delim a ++ fields delim b.
Proof.
  intros Hd. induction a as [|c a IH]; simpl.
  - now rewrite Hd.
  - destruct (is_delim delim c); rewrite IH; [reflexivity|].
    pose proof (fields_not_nil a) as Hne.
    destruct (fields delim a); [contradiction|reflexivity].
Qed.

Lemma tokens_app_delim (a : string) (d : ascii) (b : string) :
  is_delim delim d = true ->
  tokens delim (a ++ String d b) = tokens delim a ++ tokens delim b.
Proof.
  intros Hd. unfold tokens. rewrite (fields_app_delim _ _ _ Hd).
  apply filter_app.
Qed.

Lemma fields_free (t : string) :
  free_of delim t = true -> fields delim t = [t].
Proof.
  induction t as [|c t IH]; simpl; [reflexivity|].
  intros H. apply andb_prop in H as [Hc Ht].
  apply negb_true_iff in Hc. rewrite Hc, (IH Ht). reflexivity.
Qed.

Lemma tokens_free (t : string) :
  nonempty t = true -> free_of delim t = true -> tokens delim t = [t].
Proof.
  intros Hne Hfree. unfold tokens. rewrite (fields_free _ Hfree). simpl.
  now rewrite Hne.
Qed.

(** Splitting what [join] put together gives the strings back. *)
Lemma tokens_join (d : ascii) (toks : list string) :
  is_delim delim d = true ->
  forallb (fun t => nonempty t && free_of delim t) toks = true ->
  tokens delim (join d toks) = toks.
Proof.
  intros Hd. induction toks as [|t toks IH]; [reflexivity|].
  intros Hall. simpl in Hall. apply andb_prop in Hall as [Ht Hall].
  apply andb_prop in Ht as [Hne Hfree].
  destruct toks as [|t' toks].
  - simpl. now apply tokens_free.
  - change (join d (t :: t' :: toks))
      with (t ++ String d (join d (t' :: toks)))%string.
    rewrite (tokens_app_delim _ _ _ Hd), (tokens_free _ Hne Hfree), (IH Hall).
    reflexivity.
Qed.





End MoreTokenFacts.

Lemma free_of_app (delim a b : string) :
  free_of delim (a ++ b) = free_of delim a && free_of delim b.
Proof.
  induction a as [|c a IH]; simpl; [reflexivity|].
  now rewrite IH, andb_assoc.
Qed.

Lemma free_of_join (delim : string) (sep : ascii) (toks : list string) :
  is_delim delim sep = false ->
  forallb (free_of delim) toks = true ->
  free_of delim (join sep toks) = true.
Proof.
  intros Hsep. induction toks as [|t toks IH]; [reflexivity|].
  intros Hall. simpl in Hall. apply andb_prop in Hall as [Ht Hall].
  destruct toks as [|t' toks]; [exact Ht|].
  change (join sep (t :: t' :: toks))
    with (t ++ String sep (join sep (t' :: toks)))%string.
  rewrite free_of_app, Ht.
  change (free_of delim (String sep (join sep (t' :: toks))))
    with (negb (is_delim delim sep) && free_of delim (join sep (t' :: toks))).
  now rewrite Hsep, (IH Hall).
Qed.

Lemma free_of_single_cons (a c : ascii) (s : string) :
  free_of (String a EmptyString) (String c s)
  = negb (Ascii.eqb a c) && free_of (String a EmptyString) s.
Proof. simpl. now destruct (Ascii.eqb a c). Qed.

Lemma nul_free_not_zero (c : ascii) (s : string) :
  nul_free (String c s) = true ->
  Ascii.eqb c zero = false /\ nul_free s = true.
Proof.
  unfold nul_free. rewrite free_of_single_cons.
  intros H. apply andb_prop in H as [Hc Hs].
  split; [|exact Hs].
  rewrite Ascii.eqb_sym. now apply negb_true_iff.
Qed.

(** The C string read back from the block it was stored in. *)
Lemma of_block_stored (s : string) (after : list ascii) :
  nul_free s = true -> of_block (stored s after) = s.
Proof.
  unfold stored. induction s as [|c s IH]; intros H; simpl.
  - reflexivity.
  - apply nul_free_not_zero in H as [Hc Hs]. now rewrite Hc, (IH Hs).
Qed.

(** What follows the first NUL of a block is not part of its C string. *)
Lemma of_block_cut (a b : list ascii) :
  of_block (a ++ zero :: b) = of_block (a ++ [zero]).
Proof.
  induction a as [|c a IH]; simpl; [reflexivity|].
  now rewrite IH.
Qed.



Lemma split_at_char_app (c : ascii) (k v : string) :
  free_of (String c EmptyString) k = true ->
  split_at_char c (k ++ String c v) = Some (k, v).
Proof.
  induction k as [|a k IH]; intros H.
  - simpl. now rewrite Ascii.eqb_refl.
  - rewrite free_of_single_cons in H. apply andb_prop in H as [Ha Hk].
    apply negb_true_iff in Ha. simpl.
    now rewrite Ascii.eqb_sym, Ha, (IH Hk).
Qed.

(** ** The decoders, further *)


Lemma comma_pairs_app (toks1 toks2 : list string) :
  forallb has_equals toks1 = true ->
  comma_pairs (toks1 ++ toks2) = comma_pairs toks1 ++ comma_pairs toks2.
Proof.
  induction toks1 as [|t toks1 IH]; simpl; [reflexivity|].
  intros H. apply andb_prop in H as [Ht Hall].
  now rewrite Ht, (IH Hall), app_assoc.
Qed.

Lemma encode_pair_ok (kv : string * string) :
  comma_pair_ok kv = true ->
  nonempty (encode_pair kv) = true
  /\ free_of "," (encode_pair kv) = true
  /\ nul_free (encode_pair kv) = true
  /\ has_equals (encode_pair kv) = true
  /\ pair_of_token (encode_pair kv) = [kv].
Proof.
  destruct kv as [k v]. unfold comma_pair_ok, encode_pair. simpl fst. simpl snd.
  intros H. repeat (apply andb_prop in H as [H ?]).
  assert (Hsplit : split_at_char "=" (k ++ String "=" v) = Some (k, v))
    by now apply split_at_char_app.
  repeat split.
  - now destruct k.
  - rewrite free_of_app, H. simpl. assumption.
  - unfold nul_free in *. rewrite free_of_app, free_of_single_cons.
    rewrite H3. simpl. assumption.
  - unfold has_equals. now rewrite Hsplit.
  - unfold pair_of_token. rewrite Hsplit. now destruct v.
Qed.

Lemma comma_pairs_encode (pairs : list (string * string)) :
  forallb comma_pair_ok pairs = true ->
  comma_pairs (map encode_pair pairs) = pairs.
Proof.
  induction pairs as [|kv pairs IH]; [reflexivity|].
  intros H. simpl in H. apply andb_prop in H as [Hkv Hall].
  destruct (encode_pair_ok kv Hkv) as (_ & _ & _ & Heq & Hpair).
  simpl. now rewrite Heq, Hpair, (IH Hall).
Qed.

Lemma forallb_map_weaken {A B : Type} (p : A -> bool) (q : B -> bool)
    (f : A -> B) (l : list A) :
  (forall x, p x = true -> q (f x) = true) ->
  forallb p l = true -> forallb q (map f l) = true.
Proof.
  intros Hpq. induction l as [|x l IH]; [reflexivity|].
  simpl. intros H. apply andb_prop in H as [Hx Hl].
  now rewrite (Hpq x Hx), (IH Hl).
Qed.

Lemma forallb_weaken {A : Type} (p q : A -> bool) (l : list A) :
  (forall x, p x = true -> q x = true) ->
  forallb p l = true -> forallb q l = true.
Proof.
  intros Hpq H. rewrite <- (map_id l).
  now apply (forallb_map_weaken p q (fun x => x)).
Qed.

(** X1.  What is behind the first NUL of a reply buffer plays no part in
    either decoder, and a buffer that starts with a NUL decodes to nothing
    and is no error. *)
Theorem decoders_stop_at_first_nul {E : Type}
    (act : string -> string -> list E) (cmd : string) (a b : list ascii) :
  server_decode act (Some (a ++ zero :: b))
  = server_decode act (Some (a ++ [zero]))
  /\ recursor_decode act cmd (Some (a ++ zero :: b))
     = recursor_decode act cmd (Some (a ++ [zero]))
  /\ server_decode act (Some (zero :: b)) = Returns []
  /\ recursor_decode act cmd (Some (zero :: b)) = Returns [].
Proof.
  rewrite !server_decode_tokens, !recursor_decode_tokens, of_block_cut.
  repeat split. unfold positional_pairs. simpl of_block.
  now rewrite combine_nil.
Qed.

(** X2.  Round trip of the Comma-Pair Decoder: pairs whose names hold no
    [=], whose values are not empty, and in which there is no comma and no
    NUL, written as [name=value] and joined by commas, decode to the same
    pairs in the same order, whatever follows the terminator. *)
Theorem server_pairs_round_trip (pairs : list (string * string))
    (after : list ascii) :
  forallb comma_pair_ok pairs = true ->
  server_pairs (Some (stored (join "," (map encode_pair pairs)) after))
  = Returns pairs.
Proof.
  intros Hok. rewrite server_pairs_tokens, of_block_stored.
  - rewrite tokens_join; [now rewrite comma_pairs_encode|reflexivity|].
    apply (forallb_map_weaken comma_pair_ok _ _ _ ) with (2 := Hok).
    intros kv Hkv. destruct (encode_pair_ok kv Hkv) as (-> & -> & _).
    reflexivity.
  - apply free_of_join; [reflexivity|].
    apply (forallb_map_weaken comma_pair_ok _ _ _ ) with (2 := Hok).
    intros kv Hkv. destruct (encode_pair_ok kv Hkv) as (_ & _ & Hnul & _).
    exact Hnul.
Qed.

Lemma server_pairs_round_trip_witness :
  server_pairs
    (Some (stored "udp-queries=5,latency=0.5,x=a=b" (bytes "junk")))
  = Returns [("udp-queries", "5"); ("latency", "0.5"); ("x", "a=b")].
Proof.
  apply (server_pairs_round_trip
           [("udp-queries", "5"); ("latency", "0.5"); ("x", "a=b")]
           (bytes "junk")).
  reflexivity.
Defined.

(** X3.  Round trip of the Positional Decoder: a command made of a verb
    and names separated by single spaces, and a reply made of values
    separated by single spaces, decode to the names paired with the values
    by position, up to the shorter of the two. *)
Theorem recursor_pairs_round_trip (verb : string) (names vals : list string)
    (after : list ascii) :
  nonempty verb && free_of KEY_DELIM verb = true ->
  forallb (fun n => nonempty n && free_of KEY_DELIM n) names = true ->
  forallb (token_ok VALUE_DELIM) vals = true ->
  recursor_pairs (join " " (verb :: names))
    (Some (stored (join " " vals) after))
  = Returns (combine names vals).
Proof.
  intros Hverb Hnames Hvals.
  rewrite recursor_pairs_tokens, of_block_stored.
  - unfold positional_pairs.
    rewrite (tokens_join KEY_DELIM " " (verb :: names));
      [|reflexivity|simpl; now rewrite Hverb, Hnames].
    rewrite (tokens_join VALUE_DELIM " " vals); [reflexivity|reflexivity|].
    apply (forallb_weaken (token_ok VALUE_DELIM)) with (2 := Hvals).
    unfold token_ok. intros t Ht. now apply andb_prop in Ht as [-> _].
  - apply free_of_join; [reflexivity|].
    apply (forallb_weaken (token_ok VALUE_DELIM)) with (2 := Hvals).
    unfold token_ok. intros t Ht. apply andb_prop in Ht as [_ Hnul].
    exact Hnul.
Qed.

Lemma recursor_pairs_round_trip_witness :
  recursor_pairs "get questions cache-hits qa-latency"
    (Some (stored "12 7" (bytes "junk")))
  = Returns [("questions", "12"); ("cache-hits", "7")].
Proof.
  apply (recursor_pairs_round_trip "get"
           ["questions"; "cache-hits"; "qa-latency"] ["12"; "7"]
           (bytes "junk"));
    reflexivity.
Defined.





(** X5.  Replies compose: when every token of a reply [a] holds a [=], the
    reply [a,b] decodes to the pairs of [a] followed by the pairs of [b].
    With [b] empty: a trailing comma changes nothing. *)
Theorem server_pairs_app_comma (a b : string) (after : list ascii)
    (pa pb : list (string * string)) :
  nul_free a = true ->
  nul_free b = true ->
  forallb has_equals (tokens "," a) = true ->
  server_pairs (Some (stored a [])) = Returns pa ->
  server_pairs (Some (stored b [])) = Returns pb ->
  server_pairs (Some (stored (a ++ String "," b) after)) = Returns (pa ++ pb).
Proof.
  intros Ha Hb Hall. rewrite !server_pairs_tokens, !of_block_stored; auto.
  - intros [= <-] [= <-].
    now rewrite (tokens_app_delim "," a "," b eq_refl), comma_pairs_app.
  - unfold nul_free. rewrite free_of_app, free_of_single_cons.
    unfold nul_free in Ha, Hb. now rewrite Ha, Hb.
Qed.

Lemma server_pairs_app_comma_witness :
  server_pairs (Some (stored "a=1,b=2," (bytes "junk")))
  = Returns [("a", "1"); ("b", "2")].
Proof.
  apply (server_pairs_app_comma "a=1,b=2" "" (bytes "junk")
           [("a", "1"); ("b", "2")] []);
    reflexivity.
Defined.

(** ** The transport, further *)

Section TransportFacts.
Context {gauge_t : Type} (h : host gauge_t).

Ltac case_ifs :=
  repeat match goal with
         | |- context [if ?b then _ else _] => destruct b eqn:?
         | |- context [let (_, _) := ?p in _] => destruct p eqn:?
         end.

Lemma count_app {A : Type} (p : A -> bool) (a b : list A) :
  count p (a ++ b) = count p a + count p b.
Proof. unfold count. now rewrite filter_app, length_app. Qed.

(** The receive loop only receives and logs. *)
Lemma stream_recv_loop_events (alloc : nat -> bool)
    (script : list recv_result) :
  forall (k : nat) (buffer : option (list ascii)) (size : nat),
    forallb (fun e : event gauge_t => is_recv e || is_log e)
      (fst (fst (fst (stream_recv_loop alloc script k buffer size)))) = true.
Proof.
  induction script as [|r script IH]; intros k buffer size; [reflexivity|].
  destruct r as [|temp]; [reflexivity|].
  destruct temp as [|c temp]; [reflexivity|].
  cbn [stream_recv_loop].
  change (List.length (c :: temp) =? 0)%nat with false. cbv iota.
  destruct (alloc k); simpl negb; cbv iota; [|reflexivity].
  specialize (IH (S k)
                (Some (firstn size (match buffer with
                                    | Some b => b
                                    | None => []
                                    end) ++ (c :: temp) ++ [zero]))
                (size + List.length (c :: temp))).
  destruct (stream_recv_loop alloc script (S k) _ _) as [[[tr st] b] n].
  simpl in *. exact IH.
Qed.

Lemma stream_recv_loop_status (alloc : nat -> bool)
    (script : list recv_result) :
  forall (k : nat) (buffer : option (list ascii)) (size : nat),
    let st := snd (fst (fst (stream_recv_loop (gauge_t := gauge_t) alloc
                               script k buffer size))) in
    st = 0%Z \/ st = (-1)%Z.
Proof.
  induction script as [|r script IH]; intros k buffer size; [now left|].
  destruct r as [|temp]; [now right|].
  destruct temp as [|c temp]; [now left|].
  cbn [stream_recv_loop].
  change (List.length (c :: temp) =? 0)%nat with false. cbv iota.
  destruct (alloc k); simpl negb; cbv iota; [|now right].
  specialize (IH (S k)
                (Some (firstn size (match buffer with
                                    | Some b => b
                                    | None => []
                                    end) ++ (c :: temp) ++ [zero]))
                (size + List.length (c :: temp))).
  destruct (stream_recv_loop alloc script (S k) _ _) as [[[tr st] b] n].
  exact IH.
Qed.

(** A loop left with [status = 0] has called [recv] once for every chunk
    delivered and once more to see the end. *)
Lemma stream_recv_loop_recvs (alloc : nat -> bool)
    (script : list recv_result) :
  forall (k : nat) (buffer : option (list ascii)) (size : nat)
         (tr : list (event gauge_t)) (b : option (list ascii)) (n : nat),
    stream_recv_loop alloc script k buffer size = (tr, 0%Z, b, n) ->
    count is_recv tr = S (List.length (delivered script)).
Proof.
  induction script as [|r script IH]; intros k buffer size tr b n.
  - simpl. now intros [= <- <- <-].
  - destruct r as [|temp]; [simpl; discriminate|].
    destruct temp as [|c temp]; [simpl; now intros [= <- <- <-]|].
    cbn [stream_recv_loop delivered].
    change (List.length (c :: temp) =? 0)%nat with false. cbv iota.
    destruct (alloc k); simpl negb; cbv iota; [|discriminate].
    destruct (stream_recv_loop alloc script (S k) _ _)
      as [[[tr' st'] b'] n'] eqn:Hloop.
    intros [= <- -> <- <-]. apply IH in Hloop.
    unfold count in *. simpl. now rewrite Hloop.
Qed.

Lemma forallb_count_zero {A : Type} (p q : A -> bool) (l : list A) :
  (forall x, p x = true -> q x = false) ->
  forallb p l = true -> count q l = 0.
Proof.
  intros Hpq. unfold count. induction l as [|x l IH]; [reflexivity|].
  simpl. intros H. apply andb_prop in H as [Hx Hl].
  now rewrite (Hpq x Hx), (IH Hl).
Qed.

Lemma stream_recv_loop_count (q : event gauge_t -> bool)
    (alloc : nat -> bool) (script : list recv_result) (k : nat)
    (buffer : option (list ascii)) (size : nat) :
  (forall e, is_recv e || is_log e = true -> q e = false) ->
  count q (fst (fst (fst (stream_recv_loop alloc script k buffer size)))) = 0.
Proof.
  intros Hq. eapply forallb_count_zero; [exact Hq|].
  apply stream_recv_loop_events.
Qed.

Lemma not_close_recv_log (e : event gauge_t) :
  is_recv e || is_log e = true -> is_close e = false.
Proof. now destruct e. Qed.

Lemma not_plugin_recv_log (e : event gauge_t) :
  is_recv e || is_log e = true -> is_plugin_call e = false.
Proof. now destruct e. Qed.

Lemma dgram_exchange_count_close (item : list_item_t) (path : string)
    (io : io_env) :
  count is_close
    (fst (fst (dgram_exchange (gauge_t := gauge_t) item path io))) = 0.
Proof. unfold dgram_exchange. case_ifs; reflexivity. Qed.

Lemma dgram_exchange_count_plugin (item : list_item_t) (path : string)
    (io : io_env) :
  count is_plugin_call
    (fst (fst (dgram_exchange (gauge_t := gauge_t) item path io))) = 0.
Proof. unfold dgram_exchange. case_ifs; reflexivity. Qed.

(** The events of the datagram strategy, counted by a predicate that is
    false of every event the exchange, the log and [unlink] produce. *)
Lemma dgram_count (q : event gauge_t -> bool) (lsp : option string)
    (item : list_item_t) (io : io_env) :
  (forall i p io', count q
       (fst (fst (dgram_exchange (gauge_t := gauge_t) i p io'))) = 0) ->
  (forall l f a, q (ev_log (gauge_t := gauge_t) l f a) = false) ->
  (forall p, q (ev_unlink (gauge_t := gauge_t) p) = false) ->
  count q (fst (powerdns_get_data_dgram h lsp item io))
  = if (io_socket io <? 0)%Z
    then count q [ev_socket (gauge_t := gauge_t) (socktype item)]
    else count q [ev_socket (gauge_t := gauge_t) (socktype item); ev_close].
Proof.
  intros Hex Hlog Hunlink. unfold powerdns_get_data_dgram.
  destruct (io_socket io <? 0)%Z.
  { unfold count, FUNC_ERROR. simpl. rewrite Hlog. reflexivity. }
  destruct (io_unlink io) as [ust uerrno].
  destruct (negb (ust =? 0)%Z && negb (uerrno =? ENOENT)%Z).
  { unfold count, FUNC_ERROR. simpl. rewrite Hlog, Hunlink. reflexivity. }
  specialize (Hex item (dgram_sun_path h lsp) io).
  destruct (dgram_exchange item (dgram_sun_path h lsp) io)
    as [[ex status] temp].
  simpl in Hex.
  assert (Hmain : count q (ev_socket (socktype item)
                           :: ev_unlink (dgram_sun_path h lsp)
                           :: ex ++ [ev_close;
                                     ev_unlink (dgram_sun_path h lsp)])
                  = count q [ev_socket (gauge_t := gauge_t) (socktype item);
                             ev_close]).
  { change (ev_socket (socktype item) :: ev_unlink (dgram_sun_path h lsp)
            :: ex ++ [ev_close; ev_unlink (dgram_sun_path h lsp)])
      with ([ev_socket (socktype item); ev_unlink (dgram_sun_path h lsp)]
            ++ ex ++ [ev_close; ev_unlink (dgram_sun_path h lsp)]).
    rewrite !count_app, Hex. unfold count. simpl. rewrite !Hunlink.
    destruct (q (ev_socket (socktype item))), (q ev_close); reflexivity. }
  destruct (negb (status =? 0)%Z); [exact Hmain|].
  destruct (negb (io_alloc io 0)); [|exact Hmain].
  cbn [fst]. rewrite count_app, Hmain. unfold count at 2, FUNC_ERROR. simpl.
  rewrite Hlog. simpl. apply Nat.add_0_r.
Qed.

Lemma stream_count (q : event gauge_t -> bool) (item : list_item_t)
    (io : io_env) :
  (forall e, is_recv e || is_log e = true -> q e = false) ->
  (forall p, q (ev_connect (gauge_t := gauge_t) p) = false) ->
  (forall b, q (ev_send (gauge_t := gauge_t) b) = false) ->
  count q (fst (powerdns_get_data_stream (gauge_t := gauge_t) item io))
  = if (io_socket io <? 0)%Z
    then count q [ev_socket (gauge_t := gauge_t) (socktype item)]
    else count q [ev_socket (gauge_t := gauge_t) (socktype item); ev_close].
Proof.
  intros Hloop Hconnect Hsend. unfold powerdns_get_data_stream.
  assert (Hlog : forall l f a, q (ev_log (gauge_t := gauge_t) l f a) = false)
    by (intros; now apply Hloop).
  destruct (io_socket io <? 0)%Z.
  { unfold count, FUNC_ERROR. simpl. rewrite Hlog. reflexivity. }
  destruct (negb (io_connect io =? 0)%Z).
  { unfold count, FUNC_ERROR. simpl. rewrite Hlog, Hconnect. reflexivity. }
  destruct (io_send io <? 0)%Z.
  { unfold count, FUNC_ERROR. simpl. rewrite Hlog, Hconnect, Hsend.
    reflexivity. }
  pose proof (stream_recv_loop_count q (io_alloc io) (io_recv io) 0 None 0
                Hloop) as Hzero.
  destruct (stream_recv_loop (io_alloc io) (io_recv io) 0 None 0)
    as [[[tr status] buffer] size].
  simpl in Hzero.
  assert (Hmain : count q (ev_socket (socktype item)
                           :: ev_connect (sockaddr item)
                           :: ev_send (list_ascii_of_string (command item)
                                       ++ [zero])
                           :: tr ++ [ev_close])
                  = count q [ev_socket (gauge_t := gauge_t) (socktype item);
                             ev_close]).
  { change (ev_socket (socktype item) :: ev_connect (sockaddr item)
            :: ev_send (list_ascii_of_string (command item) ++ [zero])
            :: tr ++ [ev_close])
      with ([ev_socket (socktype item); ev_connect (sockaddr item);
             ev_send (list_ascii_of_string (command item) ++ [zero])]
            ++ tr ++ [ev_close]).
    rewrite !count_app, Hzero. unfold count. simpl.
    rewrite Hconnect, Hsend.
    destruct (q (ev_socket (socktype item))), (q ev_close); reflexivity. }
  destruct (status <? 0)%Z; exact Hmain.
Qed.

End TransportFacts.

Lemma substring_0_length (n : nat) (s : string) :
  String.length (substring 0 n s) = Nat.min n (String.length s).
Proof.
  revert n. induction s as [|c s IH]; intros [|n]; simpl; try reflexivity.
  now rewrite IH.
Qed.

Lemma substring_0_all (n : nat) (s : string) :
  String.length s <= n -> substring 0 n s = s.
Proof.
  revert n. induction s as [|c s IH]; intros [|n]; simpl; try reflexivity.
  - lia.
  - intros H. rewrite IH by lia. reflexivity.
Qed.

Lemma server_decode_empty {E : Type} (act : string -> string -> list E) :
  server_decode act (Some [zero]) = Returns [].
Proof. reflexivity. Qed.

Lemma recursor_decode_empty {E : Type} (act : string -> string -> list E)
    (cmd : string) :
  recursor_decode act cmd (Some [zero]) = Returns [].
Proof.
  rewrite recursor_decode_tokens. unfold positional_pairs. simpl of_block.
  now rewrite combine_nil.
Qed.

(** X6.  A successful call of the stream strategy has called [recv] once
    per chunk and once more for the end of the stream; the size it reports
    is the number of bytes received and excludes the terminator; the buffer
    holds those bytes in their order and the terminator, or is NULL when
    no byte came. *)
Theorem stream_returns_what_was_received {gauge_t : Type}
    (item : list_item_t) (io : io_env) :
  gd_status (snd (powerdns_get_data_stream (gauge_t := gauge_t) item io))
  = 0%Z ->
  let received := List.concat (delivered (io_recv io)) in
  let r := snd (powerdns_get_data_stream (gauge_t := gauge_t) item io) in
  gd_buffer_size r = List.length received
  /\ gd_buffer r = match delivered (io_recv io) with
                   | [] => None
                   | _ => Some (received ++ [zero])
                   end
  /\ count is_recv
       (fst (powerdns_get_data_stream (gauge_t := gauge_t) item io))
     = S (List.length (delivered (io_recv io))).
Proof.
  intros Hst received r.
  destruct (@stream_success_buffer gauge_t item io Hst)
    as [Hsize Hbuf].
  split; [exact Hsize|]. split; [exact Hbuf|].
  clear Hsize Hbuf r. revert Hst. unfold powerdns_get_data_stream.
  destruct (io_socket io <? 0)%Z; [discriminate|].
  destruct (negb (io_connect io =? 0)%Z); [discriminate|].
  destruct (io_send io <? 0)%Z; [discriminate|].
  destruct (stream_recv_loop (io_alloc io) (io_recv io) 0 None 0)
    as [[[tr status] buffer] size] eqn:Hloop.
  destruct (status <? 0)%Z eqn:Hneg; simpl; intros ->; [discriminate|].
  apply stream_recv_loop_recvs in Hloop.
  change (count is_recv ([ev_socket (socktype item);
                          ev_connect (sockaddr item);
                          ev_send (list_ascii_of_string (command item)
                                   ++ [zero])] ++ tr ++ [ev_close])
          = S (List.length (delivered (io_recv io)))).
  rewrite !count_app, Hloop. unfold count. simpl. lia.
Qed.

Lemma stream_returns_what_was_received_witness :
  let io := io_ok [bytes "a=1,"; bytes "b=2"] in
  let r := snd (powerdns_get_data_stream (gauge_t := Z) server_item io) in
  gd_buffer_size r = 7
  /\ gd_buffer r = Some (bytes "a=1,b=2" ++ [zero])
  /\ count is_recv (fst (powerdns_get_data_stream (gauge_t := Z) server_item io))
     = 3.
Proof.
  apply (stream_returns_what_was_received (gauge_t := Z) server_item
           (io_ok [bytes "a=1,"; bytes "b=2"])).
  reflexivity.
Defined.

(** The status the receive loop is left with says whether it ended well. *)
Lemma stream_recv_loop_completes {gauge_t : Type} (alloc : nat -> bool)
    (script : list recv_result) :
  forall (k : nat) (buffer : option (list ascii)) (size : nat),
    snd (fst (fst (stream_recv_loop (gauge_t := gauge_t) alloc script k
                     buffer size)))
    = if stream_completes alloc script k then 0%Z else (-1)%Z.
Proof.
  induction script as [|r script IH]; intros k buffer size; [reflexivity|].
  destruct r as [|temp]; [reflexivity|].
  destruct temp as [|c temp]; [reflexivity|].
  cbn [stream_recv_loop stream_completes].
  change (List.length (c :: temp) =? 0)%nat with false. cbv iota.
  destruct (alloc k); cbn [negb andb]; [|reflexivity].
  specialize (IH (S k)
                (Some (firstn size (match buffer with
                                    | Some b => b
                                    | None => []
                                    end) ++ (c :: temp) ++ [zero]))
                (size + List.length (c :: temp))).
  destruct (stream_recv_loop alloc script (S k) _ _) as [[[tr st] b] n].
  exact IH.
Qed.

(** The status the datagram exchange is left with is 0 exactly when none of
    its steps fails. *)
Lemma dgram_exchange_completes {gauge_t : Type} (item : list_item_t)
    (path : string) (io : io_env) :
  (snd (fst (dgram_exchange (gauge_t := gauge_t) item path io)) =? 0)%Z
  = match first_true (dgram_step_failures io) with
    | None => true
    | Some _ => false
    end.
Proof.
  unfold dgram_exchange, dgram_step_failures. cbn [first_true].
  destruct (negb (io_bind io =? 0)%Z) eqn:Hbind.
  { cbn [fst snd]. now apply negb_true_iff. }
  destruct (negb (io_chmod io =? 0)%Z) eqn:Hchmod.
  { cbn [fst snd option_map]. now apply negb_true_iff. }
  destruct (negb (io_connect io =? 0)%Z) eqn:Hconnect.
  { cbn [fst snd option_map]. now apply negb_true_iff. }
  destruct (io_send io <? 0)%Z eqn:Hsend.
  { cbn [fst snd option_map]. apply Z.ltb_lt in Hsend. apply Z.eqb_neq. lia. }
  destruct (recv_once io) as [status temp]. cbn [fst].
  destruct (status <? 0)%Z eqn:Hrecv; cbn [fst snd option_map];
    [|reflexivity].
  apply Z.ltb_lt in Hrecv. apply Z.eqb_neq. lia.
Qed.

(** X7.  [powerdns_get_data] returns 0 when every step succeeds and -1
    as soon as one does not: an unknown socket type; a failing [socket]; for
    a datagram socket a refused [unlink], a failing [bind], [chmod],
    [connect], [send] or [recv], or a failing [malloc]; for a stream socket
    a failing [connect] or [send], a [recv] that fails before the end of the
    stream, or a failing [realloc].  When it returns -1 it hands back no
    buffer: the caller's [buffer] stays NULL and its [buffer_size] 0,
    whatever had been received before the failure. *)
Theorem get_data_fails_without_buffer {gauge_t : Type} (h : host gauge_t)
    (lsp : option string) (item : list_item_t) (io : io_env) :
  let r := snd (powerdns_get_data h lsp item io) in
  if transport_succeeds item io
  then gd_status r = 0%Z
  else gd_status r = (-1)%Z /\ gd_buffer r = None /\ gd_buffer_size r = 0.
Proof.
  unfold powerdns_get_data, transport_succeeds.
  assert (Hsd : (0 <=? io_socket io)%Z = negb (io_socket io <? 0)%Z)
    by apply Z.leb_antisym.
  assert (Hsend : (0 <=? io_send io)%Z = negb (io_send io <? 0)%Z)
    by apply Z.leb_antisym.
  rewrite Hsd, Hsend.
  destruct (socktype item =? SOCK_DGRAM)%Z.
  - unfold powerdns_get_data_dgram, unlink_refused.
    destruct (io_socket io <? 0)%Z; cbn [negb andb]; [now repeat split|].
    destruct (io_unlink io) as [ust uerrno]. cbn [fst snd].
    destruct (negb (ust =? 0)%Z && negb (uerrno =? ENOENT)%Z);
      cbn [negb andb]; [now repeat split|].
    pose proof (dgram_exchange_completes (gauge_t := gauge_t) item
                  (dgram_sun_path h lsp) io) as Hex.
    destruct (dgram_exchange item (dgram_sun_path h lsp) io)
      as [[tr status] temp].
    cbn [fst snd] in Hex. rewrite <- Hex.
    destruct (status =? 0)%Z; cbn [negb andb]; [|now repeat split].
    destruct (io_alloc io 0); cbn [negb]; [reflexivity|now repeat split].
  - destruct (socktype item =? SOCK_STREAM)%Z; [|now repeat split].
    unfold powerdns_get_data_stream.
    destruct (io_socket io <? 0)%Z; cbn [negb andb]; [now repeat split|].
    destruct (io_connect io =? 0)%Z; cbn [negb andb]; [|now repeat split].
    destruct (io_send io <? 0)%Z; cbn [negb andb]; [now repeat split|].
    pose proof (stream_recv_loop_completes (gauge_t := gauge_t) (io_alloc io)
                  (io_recv io) 0 None 0) as Hst.
    destruct (stream_recv_loop (io_alloc io) (io_recv io) 0 None 0)
      as [[[tr status] buffer] size].
    cbn [fst snd] in Hst. subst status.
    destruct (stream_completes (io_alloc io) (io_recv io) 0);
      [reflexivity|now repeat split].
Qed.

(** A stream whose third [recv] fails after two chunks have arrived: the
    call returns -1 and what was accumulated is not handed back. *)
Example stream_failure_hands_back_nothing :
  let io := {| io_socket := 3; io_unlink := (0, 0)%Z; io_bind := 0;
               io_chmod := 0; io_connect := 0; io_send := 7;
               io_recv := [recv_data (bytes "a=1,");
                           recv_data (bytes "b=2"); recv_error];
               io_alloc := always; io_strdup := true |} in
  transport_succeeds server_item io = false
  /\ snd (powerdns_get_data demo_host None server_item io) = gd_failed (-1).
Proof. split; reflexivity. Qed.

(** X8.  [powerdns_get_data] calls [socket] once when the socket type is
    one of the two it knows and not at all otherwise, and it closes the
    descriptor exactly once when [socket] returned one, on every path,
    and never when it did not. *)
Theorem get_data_closes_its_socket {gauge_t : Type} (h : host gauge_t)
    (lsp : option string)
    (item : list_item_t) (io : io_env) :
  count is_socket (fst (powerdns_get_data h lsp item io))
  = (if ((socktype item =? SOCK_DGRAM)%Z || (socktype item =? SOCK_STREAM)%Z)
     then 1 else 0)
  /\ count is_close (fst (powerdns_get_data h lsp item io))
     = (if socket_obtained item io then 1 else 0).
Proof.
  unfold powerdns_get_data, socket_obtained.
  assert (Hsd : (0 <=? io_socket io)%Z = negb (io_socket io <? 0)%Z)
    by apply Z.leb_antisym.
  rewrite Hsd.
  destruct (socktype item =? SOCK_DGRAM)%Z; simpl orb.
  - split.
    + rewrite (dgram_count h is_socket); try reflexivity.
      * now destruct (io_socket io <? 0)%Z.
      * intros i p io'. unfold dgram_exchange.
        repeat match goal with
               | |- context [if ?b then _ else _] => destruct b
               | |- context [let (_, _) := ?p in _] => destruct p
               end; reflexivity.
    + rewrite (dgram_count h is_close); try reflexivity.
      * now destruct (io_socket io <? 0)%Z.
      * apply dgram_exchange_count_close.
  - destruct (socktype item =? SOCK_STREAM)%Z; [|split; reflexivity].
    split.
    + rewrite (stream_count is_socket); try reflexivity.
      * now destruct (io_socket io <? 0)%Z.
      * now intros [].
    + rewrite (stream_count is_close); try reflexivity.
      * now destruct (io_socket io <? 0)%Z.
      * apply not_close_recv_log.
Qed.

(** The transport itself never calls into the plugin API. *)
Lemma get_data_no_plugin_call {gauge_t : Type} (h : host gauge_t)
    (lsp : option string) (item : list_item_t) (io : io_env) :
  count is_plugin_call (fst (powerdns_get_data h lsp item io)) = 0.
Proof.
  unfold powerdns_get_data.
  destruct (socktype item =? SOCK_DGRAM)%Z.
  - rewrite (dgram_count h is_plugin_call); try reflexivity.
    + now destruct (io_socket io <? 0)%Z.
    + apply dgram_exchange_count_plugin.
  - destruct (socktype item =? SOCK_STREAM)%Z; [|reflexivity].
    rewrite (stream_count is_plugin_call); try reflexivity.
    + now destruct (io_socket io <? 0)%Z.
    + apply not_plugin_recv_log.
Qed.

(** X9.  When the transport fails, either collection function returns -1
    right away: its events are those of the transport, and neither
    [plugin_get_ds] nor [plugin_dispatch_values] is called. *)
Theorem failed_transport_submits_nothing {gauge_t : Type}
    (h : host gauge_t) (lsp : option string)
    (item : list_item_t) (io : io_env) :
  gd_status (snd (powerdns_get_data h lsp item io)) <> 0%Z ->
  powerdns_read_server h lsp item io
  = (fst (powerdns_get_data h lsp item io), Returns (-1)%Z)
  /\ powerdns_read_recursor h lsp item io
     = (fst (powerdns_get_data h lsp item io), Returns (-1)%Z)
  /\ count is_plugin_call (fst (call_func h lsp item io)) = 0.
Proof.
  intros Hst. apply Z.eqb_neq in Hst.
  assert (Hs : powerdns_read_server h lsp item io
               = (fst (powerdns_get_data h lsp item io), Returns (-1)%Z)).
  { unfold powerdns_read_server.
    destruct (powerdns_get_data h lsp item io) as [tr r].
    simpl in *. now rewrite Hst. }
  assert (Hr : powerdns_read_recursor h lsp item io
               = (fst (powerdns_get_data h lsp item io), Returns (-1)%Z)).
  { unfold powerdns_read_recursor.
    destruct (powerdns_get_data h lsp item io) as [tr r].
    simpl in *. now rewrite Hst. }
  repeat split; [exact Hs|exact Hr|].
  unfold call_func. destruct (func item); rewrite ?Hs, ?Hr;
    apply get_data_no_plugin_call.
Qed.

Lemma failed_transport_submits_nothing_witness :
  powerdns_read_server demo_host None server_item io_no_socket
  = (fst (powerdns_get_data demo_host None server_item io_no_socket),
     Returns (-1)%Z)
  /\ powerdns_read_recursor demo_host None server_item io_no_socket
     = (fst (powerdns_get_data demo_host None server_item io_no_socket),
        Returns (-1)%Z)
  /\ count is_plugin_call
       (fst (call_func demo_host None server_item io_no_socket)) = 0.
Proof.
  apply (failed_transport_submits_nothing demo_host None server_item
           io_no_socket).
  discriminate.
Defined.

(** Polling a datagram target makes no call into the plugin API. *)
Lemma dgram_call_quiet {gauge_t : Type} (h : host gauge_t)
    (lsp : option string) (item : list_item_t) (io : io_env) :
  socktype item = SOCK_DGRAM ->
  count is_plugin_call (fst (call_func h lsp item io)) = 0
  /\ (snd (call_func h lsp item io) = Returns 0%Z
      \/ snd (call_func h lsp item io) = Returns (-1)%Z).
Proof.
  intros Hdgram.
  pose proof (get_data_no_plugin_call h lsp item io) as Hquiet.
  assert (Hget : powerdns_get_data h lsp item io
                 = powerdns_get_data_dgram h lsp item io).
  { unfold powerdns_get_data. now rewrite Hdgram. }
  pose proof (dgram_success_buffer h lsp item io) as Hbuf.
  rewrite <- Hget in Hbuf.
  unfold call_func, powerdns_read_server, powerdns_read_recursor.
  destruct (powerdns_get_data h lsp item io) as [tr r]. simpl in Hquiet, Hbuf.
  destruct (gd_status r =? 0)%Z eqn:Hst; simpl negb; cbv iota.
  2:{ destruct (func item); simpl; auto. }
  apply Z.eqb_eq in Hst. destruct (Hbuf Hst) as [-> _].
  destruct (func item).
  - rewrite server_decode_empty. simpl. rewrite app_nil_r. auto.
  - destruct (io_strdup io); simpl negb; cbv iota.
    + rewrite recursor_decode_empty. simpl. rewrite app_nil_r. auto.
    + simpl. rewrite count_app, Hquiet. auto.
Qed.

(** X10.  A target whose socket type is [SOCK_DGRAM] never gets a value
    to the daemon: whatever the peer sends and whichever collection
    function the target has, the call makes no [plugin_get_ds] and no
    [plugin_dispatch_values], and returns 0 or -1. *)
Theorem dgram_target_submits_nothing {gauge_t : Type} (h : host gauge_t)
    (lsp : option string) (item : list_item_t) (io : io_env) :
  socktype item = SOCK_DGRAM ->
  count is_plugin_call (fst (call_func h lsp item io)) = 0
  /\ (snd (call_func h lsp item io) = Returns 0%Z
      \/ snd (call_func h lsp item io) = Returns (-1)%Z).
Proof. apply dgram_call_quiet. Qed.

Lemma dgram_target_submits_nothing_witness :
  count is_plugin_call
    (fst (call_func demo_host None recursor_item (io_ok [bytes "12 7"]))) = 0
  /\ (snd (call_func demo_host None recursor_item (io_ok [bytes "12 7"]))
      = Returns 0%Z
      \/ snd (call_func demo_host None recursor_item (io_ok [bytes "12 7"]))
         = Returns (-1)%Z).
Proof.
  apply (dgram_target_submits_nothing demo_host None recursor_item
           (io_ok [bytes "12 7"])).
  reflexivity.
Defined.

(** X11.  The path the datagram strategy unlinks, binds and makes
    writable always fits [sun_path] together with its terminator: it is the
    configured path, or the default one, when that is shorter than
    [UNIX_PATH_MAX], and is cut to [UNIX_PATH_MAX - 1] characters
    otherwise. *)
Theorem dgram_sun_path_fits {gauge_t : Type} (h : host gauge_t)
    (lsp : option string) :
  let wanted := match lsp with
                | Some p => p
                | None => PDNS_LOCAL_SOCKPATH h
                end in
  String.length (dgram_sun_path h lsp) <= UNIX_PATH_MAX h - 1
  /\ (if (String.length wanted <? UNIX_PATH_MAX h)%nat
      then dgram_sun_path h lsp = wanted
      else String.length (dgram_sun_path h lsp) = UNIX_PATH_MAX h - 1).
Proof.
  intros wanted. unfold dgram_sun_path, sstrncpy. fold wanted.
  rewrite substring_0_length. split; [lia|].
  destruct (String.length wanted <? UNIX_PATH_MAX h)%nat eqn:Hlt.
  - apply Nat.ltb_lt in Hlt. apply substring_0_all. lia.
  - apply Nat.ltb_ge in Hlt. lia.
Qed.

(** ** submit, further *)

Lemma convert_cases {gauge_t : Type} (h : host gauge_t) (t : ds_type_t)
    (value : string) :
  convert h t value
  = if (consumed h t value =? 0)%nat
    then inl (ev_log LOG_ERR
                (match t with
                 | DS_TYPE_GAUGE =>
                     "powerdns plugin: Cannot convert `%s' to a floating point number."
                 | DS_TYPE_COUNTER =>
                     "powerdns plugin: Cannot convert `%s' to an integer number."
                 end) [arg_s value])
    else inr (converted h t value).
Proof.
  unfold convert, consumed, converted. destruct t.
  - destruct (strtoll h value) as [c n]. simpl. now destruct (n =? 0)%nat.
  - destruct (strtod h value) as [g n]. simpl. now destruct (n =? 0)%nat.
Qed.

(** X12.  What [submit] dispatches.  It calls [plugin_dispatch_values]
    exactly when the raw name resolves, the daemon knows the resolved type
    with exactly one data source, and the conversion consumes at least one
    character of the value (trailing characters that are not part of the
    number do not matter); it then dispatches once, under the resolved
    type, one value: the [strtod] result for a gauge, the [strtoll] result
    reduced modulo 2^64 for a counter. *)
Theorem submit_dispatches {gauge_t : Type} (h : host gauge_t)
    (plugin_instance pdns_type value : string) :
  filter is_dispatch (submit h plugin_instance pdns_type value)
  = match dispatchable h pdns_type value with
    | Some (e, t) =>
        [ev_plugin_dispatch_values (type e)
           (value_list_for h plugin_instance e (converted h t value))]
    | None => []
    end
  /\ (forall c, converted h DS_TYPE_COUNTER value = counter c ->
                (0 <= c < 2 ^ 64)%Z).
Proof.
  split.
  - unfold dispatchable.
    destruct (resolve pdns_type) as [e|] eqn:Hres.
    + rewrite (submit_resolved h _ _ _ _ Hres).
      destruct (plugin_get_ds h (type e)) as [d|]; [|reflexivity].
      destruct (ds d) as [|d0 [|d1 ds']]; try reflexivity.
      rewrite convert_cases.
      now destruct (consumed h (ds_type d0) value =? 0)%nat.
    + rewrite (submit_unresolved h _ _ _ Hres).
      now destruct (past_lookup_table h).
  - unfold converted. intros c [= <-]. apply Z.mod_pos_bound. lia.
Qed.

(** X13.  What [submit] asks and reports.  It calls [plugin_get_ds]
    exactly when the raw name resolves, once, for the type of the first
    entry with that name; and a resolved pair that is not dispatched is
    reported by exactly one error message. *)
Theorem submit_looks_up_and_reports {gauge_t : Type} (h : host gauge_t)
    (plugin_instance pdns_type value : string) :
  filter is_get_ds (submit h plugin_instance pdns_type value)
  = match resolve pdns_type with
    | Some e => [ev_plugin_get_ds (type e)]
    | None => []
    end
  /\ match resolve pdns_type, dispatchable h pdns_type value with
     | Some e, None =>
         exists format args,
           submit h plugin_instance pdns_type value
           = [ev_plugin_get_ds (type e); ev_log LOG_ERR format args]
     | Some e, Some _ =>
         count is_log (submit h plugin_instance pdns_type value) = 0
     | None, _ => True
     end.
Proof.
  unfold dispatchable.
  destruct (resolve pdns_type) as [e|] eqn:Hres.
  - rewrite (submit_resolved h _ _ _ _ Hres).
    destruct (plugin_get_ds h (type e)) as [d|];
      [|split; [reflexivity|do 2 eexists; reflexivity]].
    destruct (ds d) as [|d0 [|d1 ds']];
      try (split; [reflexivity|do 2 eexists; reflexivity]).
    rewrite convert_cases.
    destruct (consumed h (ds_type d0) value =? 0)%nat;
      (split; [reflexivity|first [reflexivity|do 2 eexists; reflexivity]]).
  - rewrite (submit_unresolved h _ _ _ Hres).
    now destruct (past_lookup_table h).
Qed.

(** X14.  No entry of the lookup table is shadowed by an earlier one:
    [resolve] finds an entry under a name exactly when the entry is in the
    table under that name. *)
Theorem resolve_finds_every_entry (pdns_type : string)
    (e : statname_lookup_t) :
  resolve pdns_type = Some e <-> In e lookup_table /\ name e = pdns_type.
Proof.
  split.
  - intros Hres. unfold resolve in Hres. apply find_some in Hres as [Hin Heq].
    split; [exact Hin|]. now apply String.eqb_eq.
  - intros [Hin <-].
    assert (Hall : Forall (fun e => resolve (name e) = Some e) lookup_table)
      by (repeat constructor).
    rewrite Forall_forall in Hall. now apply Hall.
Qed.

(** ** Configuration, further *)

Section ConfigFacts.
Context {gauge_t : Type} (h : host gauge_t) (alloc_ok : nat -> bool).

Lemma add_string_inv (name : string) (dest : option string)
    (ci : oconfig_item_t) (s s' : config_state (gauge_t := gauge_t))
    (st : Z) (d : option string) :
  powerdns_config_add_string alloc_ok name dest ci s = ((st, d), s') ->
  cs_plugin s' = cs_plugin s
  /\ match option_value ci with
     | Some v =>
         if alloc_ok (cs_heap s) then st = 0%Z /\ d = Some v
         else st = (-1)%Z /\ d = None
     | None => st = (-1)%Z /\ d = dest
     end.
Proof.
  unfold powerdns_config_add_string, option_value.
  destruct (values ci) as [|[v|n|b] [|v' vs]];
    unfold cbind, strdup, alloc, log, cret; simpl;
    try (intros [= <- <- <-]; auto).
  destruct (alloc_ok (cs_heap s)); intros [= <- <- <-]; auto.
Qed.

Lemma add_server_options_inv (options : list oconfig_item_t) :
  forall (command socket_temp : option string)
         (s s' : config_state (gauge_t := gauge_t))
         (st : Z) (c so : option string),
    add_server_options alloc_ok options command socket_temp s
    = ((st, c, so), s') ->
    cs_plugin s' = cs_plugin s
    /\ (forall c' so' cmd sock,
           st = 0%Z -> c = Some c' -> so = Some so' ->
           unset_or command cmd -> unset_or socket_temp sock ->
           block_options options cmd sock = Some (c', so'))
    /\ ((forall k, alloc_ok k = true) ->
        forall cmd sock,
          command = Some cmd -> socket_temp = Some sock ->
          match block_options options cmd sock with
          | Some (c', so') => st = 0%Z /\ c = Some c' /\ so = Some so'
          | None => st <> 0%Z
          end).
Proof.
  induction options as [|o options IH];
    intros command socket_temp s s' st c so.
  - simpl. unfold cret. intros [= <- <- <- <-].
    split; [reflexivity|]. split.
    + intros c' so' cmd sock _ -> -> [Hc|Hc] [Hs|Hs]; try discriminate.
      now injection Hc as <-; injection Hs as <-.
    + intros _ cmd sock -> ->. auto.
  - cbn [add_server_options block_options]. unfold cbind at 1.
    destruct (strcasecmp_eq "Command" (key o)) eqn:Hcmd.
    + unfold cbind at 1.
      destruct (powerdns_config_add_string alloc_ok "Command" command o s)
        as [[st1 d1] s1] eqn:Hadd.
      apply add_string_inv in Hadd as [Hp1 Hadd].
      unfold cret at 1. cbn [fst snd].
      destruct (st1 =? 0)%Z eqn:Hst1; simpl negb; cbv iota.
      * intros Hrest. apply IH in Hrest as (Hp & Hinv & Hall).
        split; [congruence|].
        apply Z.eqb_eq in Hst1. subst st1.
        destruct (option_value o) as [v|]; [|now destruct Hadd].
        destruct (alloc_ok (cs_heap s)); [|now destruct Hadd].
        destruct Hadd as [_ ->]. split.
        -- intros c' so' cmd sock Hst Hc Hso _ Hsock.
           apply (Hinv c' so' v sock Hst Hc Hso); [now right|exact Hsock].
        -- intros Halloc cmd sock _ Hsock. now apply Hall.
      * unfold cret. intros [= <- <- <- <-]. split; [exact Hp1|].
        apply Z.eqb_neq in Hst1. split; [intros; contradiction|].
        intros Halloc cmd sock _ _.
        destruct (option_value o) as [v|]; [|exact Hst1].
        rewrite Halloc in Hadd. now destruct Hadd.
    + destruct (strcasecmp_eq "Socket" (key o)) eqn:Hsock.
      * unfold cbind at 1.
        destruct (powerdns_config_add_string alloc_ok "Socket" socket_temp
                    o s) as [[st1 d1] s1] eqn:Hadd.
        apply add_string_inv in Hadd as [Hp1 Hadd].
        unfold cret at 1. cbn [fst snd].
        destruct (st1 =? 0)%Z eqn:Hst1; simpl negb; cbv iota.
        -- intros Hrest. apply IH in Hrest as (Hp & Hinv & Hall).
           split; [congruence|].
           apply Z.eqb_eq in Hst1. subst st1.
           destruct (option_value o) as [v|]; [|now destruct Hadd].
           destruct (alloc_ok (cs_heap s)); [|now destruct Hadd].
           destruct Hadd as [_ ->]. split.
           ++ intros c' so' cmd sock Hst Hc Hso Hcommand _.
              apply (Hinv c' so' cmd v Hst Hc Hso); [exact Hcommand|now right].
           ++ intros Halloc cmd sock Hcommand _. now apply Hall.
        -- unfold cret. intros [= <- <- <- <-]. split; [exact Hp1|].
           apply Z.eqb_neq in Hst1. split; [intros; contradiction|].
           intros Halloc cmd sock _ _.
           destruct (option_value o) as [v|]; [|exact Hst1].
           rewrite Halloc in Hadd. now destruct Hadd.
      * unfold cbind, log, cret. simpl.
        intros [= <- <- <- <-]. split; [reflexivity|].
        split; [intros; discriminate|]. intros; discriminate.
Qed.

Lemma cbind_alloc {B : Type} (k : bool -> cfg (gauge_t := gauge_t) B)
    (s : config_state) :
  cbind (alloc alloc_ok) k s = k (alloc_ok (cs_heap s)) (bump s).
Proof. reflexivity. Qed.

Lemma cbind_strdup {B : Type} (x : string)
    (k : option string -> cfg (gauge_t := gauge_t) B) (s : config_state) :
  cbind (strdup alloc_ok x) k s
  = k (if alloc_ok (cs_heap s) then Some x else None) (bump s).
Proof. reflexivity. Qed.

Lemma cbind_log {B : Type} (l : log_level) (f : string) (a : list log_arg)
    (k : unit -> cfg (gauge_t := gauge_t) B) (s : config_state) :
  cbind (log l f a) k s = k tt (logged s (ev_log l f a)).
Proof. reflexivity. Qed.

Lemma cbind_cret {A B : Type} (a : A) (k : A -> cfg (gauge_t := gauge_t) B)
    (s : config_state) :
  cbind (cret a) k s = k a s.
Proof. reflexivity. Qed.

Lemma cbind_get_plugin {B : Type}
    (k : plugin_state -> cfg (gauge_t := gauge_t) B) (s : config_state) :
  cbind get_plugin k s = k (cs_plugin s) s.
Proof. reflexivity. Qed.

Lemma cbind_set_plugin {B : Type} (p : plugin_state)
    (k : unit -> cfg (gauge_t := gauge_t) B) (s : config_state) :
  cbind (set_plugin p) k s
  = k tt {| cs_plugin := p; cs_heap := cs_heap s; cs_log := cs_log s |}.
Proof. reflexivity. Qed.

Lemma cbind_run {A B : Type} (c : cfg (gauge_t := gauge_t) A)
    (k : A -> cfg (gauge_t := gauge_t) B) (s s1 : config_state) (a : A) :
  c s = (a, s1) -> cbind c k s = k a s1.
Proof. unfold cbind. now intros ->. Qed.

Ltac cfg_step :=
  rewrite ?cbind_alloc, ?cbind_strdup, ?cbind_log, ?cbind_cret,
    ?cbind_get_plugin, ?cbind_set_plugin.

Lemma add_server_inv (ci : oconfig_item_t)
    (s s' : config_state (gauge_t := gauge_t)) (r : Z) :
  powerdns_config_add_server h alloc_ok ci s = (r, s') ->
  ((r = (-1)%Z /\ cs_plugin s' = cs_plugin s)
   \/ (r = 0%Z
       /\ exists item,
           target_of_block h ci = Some item
           /\ cs_plugin s' = with_target (cs_plugin s) item))
  /\ ((forall k, alloc_ok k = true) ->
      r = match target_of_block h ci with Some _ => 0%Z | None => (-1)%Z end).
Proof.
  unfold powerdns_config_add_server, target_of_block, option_value.
  destruct (values ci) as [|[v|n|b] [|v' vs]];
    try (cfg_step; unfold cret; intros [= <- <-]; split; auto).
  cfg_step.
  destruct (alloc_ok (cs_heap s)) eqn:Ha0; cbn [negb].
  2:{ cfg_step. unfold cret. intros [= <- <-]. split; [auto|].
      intros Halloc. rewrite Halloc in Ha0. discriminate. }
  cfg_step.
  destruct (alloc_ok (cs_heap (bump s))) eqn:Ha1.
  2:{ cfg_step. unfold cret. intros [= <- <-]. split; [auto|].
      intros Halloc. rewrite Halloc in Ha1. discriminate. }
  destruct (server_defaults (key ci)) as [[[[f st] dc] dsock]|].
  2:{ unfold cret. intros [= <- <-]. split; auto. }
  cfg_step.
  destruct (add_server_options alloc_ok (children ci)
              (if alloc_ok (cs_heap (bump (bump s))) then Some dc else None)
              (if alloc_ok (cs_heap (bump (bump (bump s))))
               then Some dsock else None)
              (bump (bump (bump (bump s)))))
    as [[[status command] socket_temp] s1] eqn:Hopt.
  rewrite (cbind_run _ _ _ _ _ Hopt).
  apply add_server_options_inv in Hopt as (Hp & Hinv & Hall).
  cbn [cs_plugin bump] in Hp.
  assert (Hfull : (forall k, alloc_ok k = true) ->
                  match block_options (children ci) dc dsock with
                  | Some (c', so') =>
                      status = 0%Z /\ command = Some c'
                      /\ socket_temp = Some so'
                  | None => status <> 0%Z
                  end).
  { intros Halloc. apply (Hall Halloc); now rewrite Halloc. }
  clear Hall.
  destruct (status =? 0)%Z eqn:Hst; cbn [negb].
  2:{ unfold cret. intros [= <- <-]. split; [auto|].
      intros Halloc. apply Z.eqb_neq in Hst. specialize (Hfull Halloc).
      destruct (block_options (children ci) dc dsock) as [[c' so']|];
        [now destruct Hfull|reflexivity]. }
  apply Z.eqb_eq in Hst.
  destruct socket_temp as [sock|].
  2:{ cfg_step. unfold cret. intros [= <- <-]. split; [auto|].
      intros Halloc. specialize (Hfull Halloc).
      destruct (block_options (children ci) dc dsock) as [[c' so']|];
        [now destruct Hfull as (_ & _ & ?)|reflexivity]. }
  destruct command as [cmd|].
  2:{ cfg_step. unfold cret. intros [= <- <-]. split; [auto|].
      intros Halloc. specialize (Hfull Halloc).
      destruct (block_options (children ci) dc dsock) as [[c' so']|];
        [now destruct Hfull as (_ & ? & _)|reflexivity]. }
  assert (Hblock : block_options (children ci) dc dsock = Some (cmd, sock)).
  { apply (Hinv cmd sock dc dsock Hst eq_refl eq_refl).
    - unfold unset_or.
      match goal with |- context [if ?b then _ else _] => destruct b end;
        auto.
    - unfold unset_or.
      match goal with |- context [if ?b then _ else _] => destruct b end;
        auto. }
  rewrite Hblock.
  cfg_step.
  destruct (alloc_ok (cs_heap s1)) eqn:Ha2; cbn [negb].
  2:{ cfg_step. unfold cret. intros [= <- <-]. split; [auto|].
      intros Halloc. rewrite Halloc in Ha2. discriminate. }
  cfg_step. unfold cret. intros [= <- <-]. split; [|reflexivity].
  right. split; [reflexivity|]. eexists. split; [reflexivity|].
  cbn [cs_plugin logged bump]. rewrite Hp. reflexivity.
Qed.

Lemma target_of_block_ok (ci : oconfig_item_t) (item : list_item_t) :
  target_of_block h ci = Some item -> item_ok h item.
Proof.
  unfold target_of_block, server_defaults.
  destruct (option_value ci) as [inst|]; [|discriminate].
  destruct (strcasecmp_eq "Server" (key ci)).
  - destruct (block_options _ _ _) as [[cmd sock]|]; [|discriminate].
    intros [= <-]. split; [now left|].
    simpl. unfold sstrncpy. rewrite substring_0_length. lia.
  - destruct (strcasecmp_eq "Recursor" (key ci)); [|discriminate].
    destruct (block_options _ _ _) as [[cmd sock]|]; [|discriminate].
    intros [= <-]. split; [now right|].
    simpl. unfold sstrncpy. rewrite substring_0_length. lia.
Qed.

Lemma block_options_all_ok (options : list oconfig_item_t) :
  forall cmd sock c' so',
    block_options options cmd sock = Some (c', so') ->
    forallb option_ok options = true.
Proof.
  induction options as [|o options IH]; intros cmd sock c' so';
    [reflexivity|].
  cbn [block_options forallb]. unfold option_ok at 1.
  destruct (strcasecmp_eq "Command" (key o)); cbn [orb].
  - destruct (option_value o); [|discriminate]. cbn [andb]. apply IH.
  - destruct (strcasecmp_eq "Socket" (key o)); [|discriminate].
    destruct (option_value o); [|discriminate]. cbn [andb]. apply IH.
Qed.

(** The part of [powerdns_config]'s loop that handles a [Server] or
    [Recursor] key. *)
Lemma config_target_step (o : oconfig_item_t)
    (s : config_state (gauge_t := gauge_t)) :
  exists s1,
    (if strcasecmp_eq "Server" (key o) || strcasecmp_eq "Recursor" (key o)
     then cbind (powerdns_config_add_server h alloc_ok o)
            (fun _ => cret tt)
     else cret tt) s = (tt, s1)
    /\ (exists added,
           llist_head (the_list (cs_plugin s1))
           = llist_head (the_list (cs_plugin s)) ++ added
           /\ Forall (item_ok h) added)
    /\ local_sockpath (cs_plugin s1) = local_sockpath (cs_plugin s)
    /\ (the_list (cs_plugin s) <> None -> the_list (cs_plugin s1) <> None)
    /\ ((forall k, alloc_ok k = true) ->
        llist_head (the_list (cs_plugin s1))
        = llist_head (the_list (cs_plugin s))
          ++ (if is_target_block o
              then match target_of_block h o with
                   | Some item => [item]
                   | None => []
                   end
              else [])).
Proof.
  unfold is_target_block.
  destruct (strcasecmp_eq "Server" (key o) || strcasecmp_eq "Recursor" (key o)).
  - destruct (powerdns_config_add_server h alloc_ok o s) as [r s1] eqn:Hadd.
    exists s1. rewrite (cbind_run _ _ _ _ _ Hadd).
    split; [reflexivity|].
    pose proof (add_server_inv o s s1 r Hadd)
      as [[[Hr Hp] | [Hr (item & Ht & Hp)]] Hall].
    + rewrite Hp. repeat split; auto.
      * exists []. now rewrite app_nil_r.
      * intros Halloc. specialize (Hall Halloc).
        destruct (target_of_block h o); [congruence|now rewrite app_nil_r].
    + rewrite Hp, Ht. unfold with_target, llist_append. simpl.
      repeat split; auto; try discriminate.
      exists [item]. split; [reflexivity|].
      constructor; [exact (target_of_block_ok o item Ht)|constructor].
  - exists s. split; [reflexivity|]. repeat split; auto.
    + exists []. now rewrite app_nil_r.
    + intros _. now rewrite app_nil_r.
Qed.

Lemma config_options_inv (options : list oconfig_item_t) :
  forall (s s' : config_state (gauge_t := gauge_t)) (r : Z),
    config_options h alloc_ok options s = (r, s') ->
    (r = 0%Z \/ r = 1%Z)
    /\ (exists added,
           llist_head (the_list (cs_plugin s'))
           = llist_head (the_list (cs_plugin s)) ++ added
           /\ Forall (item_ok h) added)
    /\ (the_list (cs_plugin s) <> None -> the_list (cs_plugin s') <> None)
    /\ ((forall k, alloc_ok k = true) ->
        r = 0%Z
        /\ llist_head (the_list (cs_plugin s'))
           = llist_head (the_list (cs_plugin s)) ++ targets_of h options
        /\ local_sockpath (cs_plugin s')
           = local_socket_after options (local_sockpath (cs_plugin s))).
Proof.
  induction options as [|o options IH]; intros s s' r.
  - simpl. unfold cret. intros [= <- <-]. repeat split; auto.
    + exists []. now rewrite app_nil_r.
    + now rewrite app_nil_r.
  - cbn [config_options targets_of local_socket_after].
    destruct (config_target_step o s)
      as (s1 & Hstep & (added1 & Hadd1 & Hok1) & Hlsp1 & Hsome1 & Hfull1).
    rewrite (cbind_run _ _ _ _ _ Hstep).
    destruct (strcasecmp_eq "LocalSocket" (key o)).
    + cfg_step.
      destruct (alloc_ok (cs_heap s1)) eqn:Ha.
      * cfg_step. intros Hrest.
        pose proof (IH _ _ _ Hrest)
          as (Hr & (added & Hadd & Hok) & Hsome & Hfull).
        cbn [cs_plugin the_list local_sockpath bump] in *.
        split; [exact Hr|]. split; [|split].
        -- exists (added1 ++ added).
           rewrite Hadd, Hadd1, app_assoc. split; [reflexivity|].
           apply Forall_app. auto.
        -- auto.
        -- intros Halloc. destruct (Hfull Halloc) as (Hr0 & Hl & Hp).
           split; [exact Hr0|].
           rewrite Hl, (Hfull1 Halloc), app_assoc. split; [reflexivity|].
           exact Hp.
      * unfold cret. intros [= <- <-]. cbn [cs_plugin bump].
        split; [now right|]. split; [|split].
        -- exists added1. auto.
        -- exact Hsome1.
        -- intros Halloc. rewrite Halloc in Ha. discriminate.
    + cfg_step. intros Hrest.
      pose proof (IH _ _ _ Hrest)
        as (Hr & (added & Hadd & Hok) & Hsome & Hfull).
      cbn [cs_plugin logged] in *.
      split; [exact Hr|]. split; [|split].
      * exists (added1 ++ added).
        rewrite Hadd, Hadd1, app_assoc. split; [reflexivity|].
        apply Forall_app. auto.
      * auto.
      * intros Halloc. destruct (Hfull Halloc) as (Hr0 & Hl & Hp).
        split; [exact Hr0|].
        rewrite Hl, (Hfull1 Halloc), app_assoc. split; [reflexivity|].
        now rewrite Hp, Hlsp1.
Qed.

Lemma powerdns_config_inv (ci : oconfig_item_t)
    (s s' : config_state (gauge_t := gauge_t)) (r : Z) :
  powerdns_config h alloc_ok ci s = (r, s') ->
  (r = 0%Z \/ r = 1%Z \/ r = (-1)%Z)
  /\ (r = (-1)%Z <->
      the_list (cs_plugin s) = None /\ alloc_ok (cs_heap s) = false)
  /\ (exists added,
         llist_head (the_list (cs_plugin s'))
         = llist_head (the_list (cs_plugin s)) ++ added
         /\ Forall (item_ok h) added)
  /\ ((forall k, alloc_ok k = true) ->
      r = 0%Z
      /\ cs_plugin s'
         = {| the_list :=
                Some (llist_head (the_list (cs_plugin s))
                      ++ targets_of h (children ci));
              local_sockpath :=
                local_socket_after (children ci)
                  (local_sockpath (cs_plugin s)) |}).
Proof.
  unfold powerdns_config. cfg_step. cbn [cs_plugin logged].
  destruct (the_list (cs_plugin s)) as [l|] eqn:Hlist.
  - intros Hopt.
    pose proof (config_options_inv _ _ _ _ Hopt)
      as (Hr & Hadd & Hsome & Hfull).
    cbn [cs_plugin logged] in Hadd, Hsome, Hfull.
    rewrite Hlist in *. simpl llist_head in *.
    split; [tauto|]. split; [|split; [exact Hadd|]].
    + split; [intros ->; now destruct Hr|now intros [? _]].
    + intros Halloc. destruct (Hfull Halloc) as (Hr0 & Hl & Hp).
      split; [exact Hr0|].
      destruct (cs_plugin s') as [[l'|] lsp'];
        [|now elim Hsome].
      simpl in *. now rewrite Hl, Hp.
  - cfg_step. cbn [cs_heap logged].
    destruct (alloc_ok (cs_heap s)) eqn:Ha; cbn [negb].
    + cfg_step. intros Hopt.
      pose proof (config_options_inv _ _ _ _ Hopt)
        as (Hr & Hadd & Hsome & Hfull).
      cbn [cs_plugin the_list local_sockpath bump logged llist_head] in *.
      split; [tauto|]. split; [|split; [exact Hadd|]].
      * split; [intros ->; now destruct Hr|now intros [_ ?]].
      * intros Halloc. destruct (Hfull Halloc) as (Hr0 & Hl & Hp).
        split; [exact Hr0|].
        destruct (cs_plugin s') as [[l'|] lsp'];
          [|now elim Hsome].
        simpl in *. now rewrite Hl, Hp.
    + cfg_step. unfold cret. intros [= <- <-].
      cbn [cs_plugin logged bump]. rewrite Hlist.
      split; [tauto|]. split; [tauto|]. split.
      * exists []. now rewrite app_nil_r.
      * intros Halloc. rewrite Halloc in Ha. discriminate.
Qed.

End ConfigFacts.

(** X15.  Called as [powerdns_config] calls it, for a block whose key is
    [Server] or [Recursor] and with the list created,
    [powerdns_config_add_server] is all or nothing, whatever the allocator
    does: either it returns -1 and leaves the list and the local socket
    path as they were, or it returns 0 and has appended exactly one target,
    the one the block describes: instance, command (default or the last
    [Command]), socket path (default or the last [Socket], cut to
    [sun_path]), and the collection function and socket type that go with
    the block's key. *)
Theorem add_server_all_or_nothing {gauge_t : Type} (h : host gauge_t)
    (alloc_ok : nat -> bool) (ci : oconfig_item_t)
    (s : config_state (gauge_t := gauge_t)) :
  is_target_block ci = true ->
  the_list (cs_plugin s) <> None ->
  let result := powerdns_config_add_server h alloc_ok ci s in
  (fst result = (-1)%Z /\ cs_plugin (snd result) = cs_plugin s)
  \/ (fst result = 0%Z
      /\ exists item,
          target_of_block h ci = Some item
          /\ cs_plugin (snd result) = with_target (cs_plugin s) item
          /\ item_ok h item).
Proof.
  intros _ _ result. subst result.
  destruct (powerdns_config_add_server h alloc_ok ci s) as [r s'] eqn:Hadd.
  destruct (add_server_inv h alloc_ok ci s s' r Hadd)
    as [[[Hr Hp] | [Hr (item & Ht & Hp)]] _]; [now left|right].
  split; [exact Hr|]. exists item.
  split; [exact Ht|]. split; [exact Hp|].
  exact (target_of_block_ok h ci item Ht).
Qed.

Lemma add_server_all_or_nothing_witness :
  let ci := oconfig_item "Server" [OCONFIG_TYPE_STRING "auth"]
              [oconfig_item "Socket" [OCONFIG_TYPE_STRING "/tmp/auth.sock"]
                 []] in
  let s : config_state (gauge_t := Z) :=
    {| cs_plugin := {| the_list := Some [recursor_item];
                       local_sockpath := None |};
       cs_heap := 0; cs_log := [] |} in
  let result := powerdns_config_add_server demo_host always ci s in
  (fst result = (-1)%Z /\ cs_plugin (snd result) = cs_plugin s)
  \/ (fst result = 0%Z
      /\ exists item,
          target_of_block demo_host ci = Some item
          /\ cs_plugin (snd result) = with_target (cs_plugin s) item
          /\ item_ok demo_host item).
Proof.
  apply (add_server_all_or_nothing demo_host always
           (oconfig_item "Server" [OCONFIG_TYPE_STRING "auth"]
              [oconfig_item "Socket" [OCONFIG_TYPE_STRING "/tmp/auth.sock"]
                 []])
           {| cs_plugin := {| the_list := Some [recursor_item];
                              local_sockpath := None |};
              cs_heap := 0; cs_log := [] |}).
  - reflexivity.
  - discriminate.
Defined.

(** The block of the witness is entered behind the target already there,
    with the socket path it names and the defaults of a [Server]. *)
Example add_server_appends_the_block :
  let ci := oconfig_item "Server" [OCONFIG_TYPE_STRING "auth"]
              [oconfig_item "Socket" [OCONFIG_TYPE_STRING "/tmp/auth.sock"]
                 []] in
  let s : config_state (gauge_t := Z) :=
    {| cs_plugin := {| the_list := Some [recursor_item];
                       local_sockpath := None |};
       cs_heap := 0; cs_log := [] |} in
  let result := powerdns_config_add_server demo_host always ci s in
  fst result = 0%Z
  /\ the_list (cs_plugin (snd result))
     = Some [recursor_item;
             {| func := func_read_server; instance := "auth";
                command := SERVER_COMMAND; sockaddr := "/tmp/auth.sock";
                socktype := SOCK_STREAM |}].
Proof. vm_compute. split; reflexivity. Qed.

(** X16.  In a block whose key is [Server] or [Recursor], a nested option
    that is not [Command] or [Socket] with exactly one string argument
    makes [powerdns_config_add_server] reject the whole block: it returns
    -1 and no target is added, whatever else the block holds and whatever
    the allocator does. *)
Theorem add_server_rejects_bad_option {gauge_t : Type} (h : host gauge_t)
    (alloc_ok : nat -> bool) (ci : oconfig_item_t)
    (s : config_state (gauge_t := gauge_t)) :
  is_target_block ci = true ->
  forallb option_ok (children ci) = false ->
  fst (powerdns_config_add_server h alloc_ok ci s) = (-1)%Z
  /\ cs_plugin (snd (powerdns_config_add_server h alloc_ok ci s))
     = cs_plugin s.
Proof.
  intros _ Hbad.
  destruct (powerdns_config_add_server h alloc_ok ci s) as [r s'] eqn:Hadd.
  destruct (add_server_inv h alloc_ok ci s s' r Hadd)
    as [[[Hr Hp] | [Hr (item & Ht & Hp)]] _]; [now split|].
  exfalso. revert Ht. unfold target_of_block.
  destruct (option_value ci); [|discriminate].
  destruct (server_defaults (key ci)) as [[[[f st] dc] dsock]|];
    [|discriminate].
  destruct (block_options (children ci) dc dsock) as [[cmd sock]|] eqn:Hb;
    [|discriminate].
  apply block_options_all_ok in Hb. congruence.
Qed.

Lemma add_server_rejects_bad_option_witness :
  let ci := oconfig_item "Recursor" [OCONFIG_TYPE_STRING "broken"]
              [oconfig_item "Command" [OCONFIG_TYPE_STRING "get questions"] [];
               oconfig_item "Port" [OCONFIG_TYPE_NUMBER 53] []] in
  let s : config_state (gauge_t := Z) :=
    {| cs_plugin := {| the_list := Some [server_item];
                       local_sockpath := None |};
       cs_heap := 0; cs_log := [] |} in
  fst (powerdns_config_add_server demo_host always ci s) = (-1)%Z
  /\ cs_plugin (snd (powerdns_config_add_server demo_host always ci s))
     = cs_plugin s.
Proof.
  apply (add_server_rejects_bad_option demo_host always
           (oconfig_item "Recursor" [OCONFIG_TYPE_STRING "broken"]
              [oconfig_item "Command" [OCONFIG_TYPE_STRING "get questions"] [];
               oconfig_item "Port" [OCONFIG_TYPE_NUMBER 53] []])
           {| cs_plugin := {| the_list := Some [server_item];
                              local_sockpath := None |};
              cs_heap := 0; cs_log := [] |}).
  - reflexivity.
  - reflexivity.
Defined.

(** X17.  With no allocation failing, [powerdns_config] returns 0 and
    leaves a list that holds the targets it held before followed by one
    target for every well-formed [Server] or [Recursor] block, in the order
    of the blocks; blocks that are not well formed are skipped and do not
    stop the others; and the local socket path is the key of the last
    [LocalSocket] option, or what it was when there is none. *)
Theorem powerdns_config_adds_the_targets {gauge_t : Type} (h : host gauge_t)
    (alloc_ok : nat -> bool) (ci : oconfig_item_t)
    (s : config_state (gauge_t := gauge_t)) :
  (forall k, alloc_ok k = true) ->
  fst (powerdns_config h alloc_ok ci s) = 0%Z
  /\ cs_plugin (snd (powerdns_config h alloc_ok ci s))
     = {| the_list :=
            Some (llist_head (the_list (cs_plugin s))
                  ++ targets_of h (children ci));
          local_sockpath :=
            local_socket_after (children ci)
              (local_sockpath (cs_plugin s)) |}.
Proof.
  intros Halloc.
  destruct (powerdns_config h alloc_ok ci s) as [r s'] eqn:Hcfg.
  destruct (powerdns_config_inv h alloc_ok ci s s' r Hcfg)
    as (_ & _ & _ & Hfull).
  exact (Hfull Halloc).
Qed.

Lemma powerdns_config_adds_the_targets_witness :
  fst (powerdns_config demo_host always example_block fresh_config_state)
  = 0%Z
  /\ cs_plugin
       (snd (powerdns_config demo_host always example_block
               fresh_config_state))
     = {| the_list :=
            Some [ {| func := func_read_server; instance := "auth";
                      command := "SHOW *"; sockaddr := "/tmp/auth.sock";
                      socktype := SOCK_STREAM |};
                   {| func := func_read_recursor; instance := "rec";
                      command := "get questions";
                      sockaddr := RECURSOR_SOCKET;
                      socktype := SOCK_DGRAM |} ];
          local_sockpath := Some "LocalSocket" |}.
Proof.
  apply (powerdns_config_adds_the_targets demo_host always example_block
           fresh_config_state).
  intros k. reflexivity.
Defined.

(** X18.  Whatever the allocator does, [powerdns_config] returns 0, 1 or
    -1, and -1 only when there was no list yet and creating it failed; it
    never removes or reorders a target: the list afterwards is the list
    before with targets appended; and every target it appends pairs the
    server collection function with a stream socket or the recursor one
    with a datagram socket, with a socket path that fits [sun_path]. *)
Theorem powerdns_config_only_appends {gauge_t : Type} (h : host gauge_t)
    (alloc_ok : nat -> bool) (ci : oconfig_item_t)
    (s : config_state (gauge_t := gauge_t)) :
  let result := powerdns_config h alloc_ok ci s in
  (fst result = 0%Z \/ fst result = 1%Z \/ fst result = (-1)%Z)
  /\ (fst result = (-1)%Z <->
      the_list (cs_plugin s) = None /\ alloc_ok (cs_heap s) = false)
  /\ (exists added,
         llist_head (the_list (cs_plugin (snd result)))
         = llist_head (the_list (cs_plugin s)) ++ added
         /\ Forall (item_ok h) added).
Proof.
  intros result. subst result.
  destruct (powerdns_config h alloc_ok ci s) as [r s'] eqn:Hcfg.
  destruct (powerdns_config_inv h alloc_ok ci s s' r Hcfg)
    as (Hr & Hfail & Hadd & _).
  auto.
Qed.

(** X19.  No target that [powerdns_config] enters for a [Recursor] block
    ever gets a value to the daemon: such a target has a datagram socket,
    and polling it makes no call of [plugin_get_ds] or
    [plugin_dispatch_values], whatever the recursor answers. *)
Theorem configured_recursor_submits_nothing {gauge_t : Type}
    (h : host gauge_t) (alloc_ok : nat -> bool) (ci : oconfig_item_t)
    (item : list_item_t) (lsp : option string) (io : io_env) :
  In item (llist_head (the_list (configured h alloc_ok ci))) ->
  func item = func_read_recursor ->
  socktype item = SOCK_DGRAM
  /\ count is_plugin_call (fst (call_func h lsp item io)) = 0.
Proof.
  intros Hin Hfunc. unfold configured in Hin.
  destruct (powerdns_config h alloc_ok ci
              {| cs_plugin := initial_state; cs_heap := 0; cs_log := [] |})
    as [r s'] eqn:Hcfg.
  destruct (powerdns_config_inv h alloc_ok ci _ s' r Hcfg)
    as (_ & _ & (added & Hadd & Hok) & _).
  simpl in Hin, Hadd. rewrite Hadd in Hin.
  rewrite Forall_forall in Hok.
  destruct (Hok item Hin) as [[[Hf _] | [_ Hdgram]] _]; [congruence|].
  split; [exact Hdgram|].
  now apply dgram_call_quiet.
Qed.

Lemma configured_recursor_submits_nothing_witness :
  let item := {| func := func_read_recursor; instance := "rec";
                 command := "get questions"; sockaddr := RECURSOR_SOCKET;
                 socktype := SOCK_DGRAM |} in
  socktype item = SOCK_DGRAM
  /\ count is_plugin_call
       (fst (call_func demo_host (Some "LocalSocket") item
               (io_ok [bytes "42"]))) = 0.
Proof.
  apply (configured_recursor_submits_nothing demo_host always example_block
           {| func := func_read_recursor; instance := "rec";
              command := "get questions"; sockaddr := RECURSOR_SOCKET;
              socktype := SOCK_DGRAM |}
           (Some "LocalSocket") (io_ok [bytes "42"])).
  - vm_compute. right. left. reflexivity.
  - reflexivity.
Defined.

(** X20.  [powerdns_shutdown] returns 0 and empties the registry but keeps
    the local socket path: a read cycle after it polls nothing, a second
    shutdown changes nothing, and a later [powerdns_config] (with no
    allocation failing) starts from an empty list, so that the list holds
    the targets of the new block only, while a [LocalSocket] given before
    the shutdown still applies. *)
Theorem shutdown_empties_the_registry {gauge_t : Type} (h : host gauge_t)
    (alloc_ok : nat -> bool) (st : plugin_state) (io : nat -> io_env)
    (ci : oconfig_item_t) (heap : nat) (log : list (event gauge_t)) :
  (forall k, alloc_ok k = true) ->
  let st' := fst (powerdns_shutdown st) in
  snd (powerdns_shutdown st) = 0%Z
  /\ powerdns_read h st' io = ([], Returns 0%Z)
  /\ powerdns_shutdown st' = (st', 0%Z)
  /\ cs_plugin (snd (powerdns_config h alloc_ok ci
                       {| cs_plugin := st'; cs_heap := heap;
                          cs_log := log |}))
     = {| the_list := Some (targets_of h (children ci));
          local_sockpath :=
            local_socket_after (children ci) (local_sockpath st) |}.
Proof.
  intros Halloc st'.
  assert (Hst' : st' = {| the_list := None;
                          local_sockpath := local_sockpath st |}).
  { subst st'. unfold powerdns_shutdown.
    destruct st as [[l|] lsp]; reflexivity. }
  repeat split.
  - unfold powerdns_shutdown. now destruct (the_list st).
  - now rewrite Hst'.
  - now rewrite Hst'.
  - destruct (powerdns_config h alloc_ok ci
                {| cs_plugin := st'; cs_heap := heap; cs_log := log |})
      as [r s'] eqn:Hcfg.
    destruct (powerdns_config_inv h alloc_ok ci _ s' r Hcfg)
      as (_ & _ & _ & Hfull).
    destruct (Hfull Halloc) as [_ Hp]. cbn [snd]. rewrite Hp.
    cbn [cs_plugin]. now rewrite Hst'.
Qed.

Lemma shutdown_empties_the_registry_witness :
  let st := {| the_list := Some [server_item; recursor_item];
               local_sockpath := Some "LocalSocket" |} in
  let st' := fst (powerdns_shutdown st) in
  snd (powerdns_shutdown st) = 0%Z
  /\ powerdns_read demo_host st' (fun _ => io_ok [bytes "a=1"])
     = ([], Returns 0%Z)
  /\ powerdns_shutdown st' = (st', 0%Z)
  /\ cs_plugin (snd (powerdns_config demo_host always
                       (oconfig_item "Plugin" []
                          [oconfig_item "Server" [OCONFIG_TYPE_STRING "b"] []])
                       {| cs_plugin := st'; cs_heap := 7; cs_log := [] |}))
     = {| the_list :=
            Some [ {| func := func_read_server; instance := "b";
                      command := SERVER_COMMAND; sockaddr := SERVER_SOCKET;
                      socktype := SOCK_STREAM |} ];
          local_sockpath := Some "LocalSocket" |}.
Proof.
  apply (shutdown_empties_the_registry demo_host always
           {| the_list := Some [server_item; recursor_item];
              local_sockpath := Some "LocalSocket" |}
           (fun _ => io_ok [bytes "a=1"])
           (oconfig_item "Plugin" []
              [oconfig_item "Server" [OCONFIG_TYPE_STRING "b"] []])
           7 []).
  intros k. reflexivity.
Defined.

(** ** End to end *)

(** X21.  A stream target that received at least one byte submits the
    pairs of the concatenated reply: how the reply was cut into chunks by
    [recv] plays no part, only the bytes and their order do. *)
Theorem stream_target_decodes_the_whole_reply {gauge_t : Type}
    (h : host gauge_t) (lsp : option string) (item : list_item_t)
    (io : io_env) :
  socktype item = SOCK_STREAM ->
  gd_status (snd (powerdns_get_data_stream (gauge_t := gauge_t) item io))
  = 0%Z ->
  delivered (io_recv io) <> [] ->
  powerdns_read_server h lsp item io
  = (fst (powerdns_get_data_stream item io)
     ++ each_pair (submit h (instance item))
          (comma_pairs
             (tokens ","
                (of_block (List.concat (delivered (io_recv io)) ++ [zero])))),
     Returns 0%Z).
Proof.
  intros Hstream Hst Hsome.
  assert (Hget : powerdns_get_data h lsp item io
                 = powerdns_get_data_stream item io).
  { unfold powerdns_get_data. now rewrite Hstream. }
  destruct (@stream_success_buffer gauge_t item io Hst) as [_ Hbuf].
  destruct (delivered (io_recv io)) as [|chunk chunks] eqn:Hd;
    [contradiction|].
  destruct (powerdns_get_data_stream item io) as [tr r] eqn:Hrun.
  simpl in Hst, Hbuf.
  exact (powerdns_read_server_decodes h lsp item io tr r _ Hget Hst Hbuf).
Qed.

Lemma stream_target_decodes_the_whole_reply_witness :
  let io := io_ok [bytes "udp-que"; bytes "ries=5,qsi"; bytes "ze-q=7"] in
  powerdns_read_server demo_host None server_item io
  = (fst (powerdns_get_data_stream server_item io)
     ++ each_pair (submit demo_host "auth")
          [("udp-queries", "5"); ("qsize-q", "7")],
     Returns 0%Z).
Proof.
  apply (stream_target_decodes_the_whole_reply demo_host None server_item
           (io_ok [bytes "udp-que"; bytes "ries=5,qsi"; bytes "ze-q=7"]));
    [reflexivity|reflexivity|discriminate].
Defined.

(** X22.  The datagram exchange takes its steps in one order, [bind],
    [chmod] to 0666, [connect], [send] of the command without its
    terminator, [recv], and stops at the first that fails, judged by what
    the call returned ([bind], [chmod], [connect]: not 0; [send], [recv]:
    negative).  When the step at position [k] is the first to fail, the
    steps up to and including it have been taken, none behind it, one error
    naming that step has been logged, and the exchange is left with a
    status other than 0.  When none fails, all five steps have been taken,
    nothing is logged and the status is 0. *)
Theorem dgram_exchange_in_order {gauge_t : Type} (item : list_item_t)
    (path : string) (io : io_env) :
  let steps : list (event gauge_t) :=
    [ev_bind path; ev_chmod path 438; ev_connect (sockaddr item);
     ev_send (list_ascii_of_string (command item)); ev_recv TEMP_SIZE] in
  let run := dgram_exchange (gauge_t := gauge_t) item path io in
  match first_true (dgram_step_failures io) with
  | Some k =>
      fst (fst run)
      = firstn (S k) steps ++ [FUNC_ERROR (nth k dgram_step_names "")]
      /\ snd (fst run) <> 0%Z
  | None => fst (fst run) = steps /\ snd (fst run) = 0%Z
  end.
Proof.
  intros steps run. subst steps run.
  unfold dgram_exchange, dgram_step_failures. cbn [first_true].
  destruct (negb (io_bind io =? 0)%Z) eqn:Hbind.
  { apply negb_true_iff, Z.eqb_neq in Hbind. now split. }
  destruct (negb (io_chmod io =? 0)%Z) eqn:Hchmod.
  { apply negb_true_iff, Z.eqb_neq in Hchmod. now split. }
  destruct (negb (io_connect io =? 0)%Z) eqn:Hconnect.
  { apply negb_true_iff, Z.eqb_neq in Hconnect. now split. }
  destruct (io_send io <? 0)%Z eqn:Hsend.
  { apply Z.ltb_lt in Hsend. split; [reflexivity|]. cbn [fst snd]. lia. }
  destruct (recv_once io) as [status temp]. cbn [fst].
  destruct (status <? 0)%Z eqn:Hrecv.
  { apply Z.ltb_lt in Hrecv. split; [reflexivity|]. cbn [fst snd]. lia. }
  now split.
Qed.

(** The exchange when [connect] is refused: three steps, one error, no
    [send]. *)
Example dgram_exchange_connect_refused :
  let io := {| io_socket := 3; io_unlink := (0, 0)%Z; io_bind := 0;
               io_chmod := 0; io_connect := -1; io_send := 6;
               io_recv := [recv_data (bytes "1 2 3")];
               io_alloc := always; io_strdup := true |} in
  dgram_exchange (gauge_t := Z) recursor_item "/tmp/p" io
  = ([ev_bind "/tmp/p"; ev_chmod "/tmp/p" 438; ev_connect RECURSOR_SOCKET;
      FUNC_ERROR "connect"], (-1)%Z, []).
Proof. reflexivity. Qed.
